(** * MaydivCRM: the storage gateway and the SEO resource API

    A shallow embedding of [src/config/database.js] (the module-level
    connection variable, [initializeDatabase], [getDatabase]) and of the five
    SEO route handlers of [src/server.js], together with the properties the
    specification states about them.

    The handlers talk to SQLite through better-sqlite3.  The statements they
    prepare are embedded by their meaning on the [seo] table declared in
    [database.js]: a table keyed by its INTEGER PRIMARY KEY AUTOINCREMENT
    [id], with a UNIQUE NOT NULL [pagePath].  What lies outside the model is
    said where it is left out. *)

From Stdlib Require Import ZArith QArith String Ascii DecimalString.
From stdpp Require Import base option list gmap strings fin_maps sorting.

Local Open Scope string_scope.
Local Open Scope Z_scope.

(** ** Values *)

(** The values [express.json] hands the handlers in a field of the request
    body.  [JUndefined] is what destructuring yields for a property the body
    does not have.  A number is a double: [JNum] is one with an integer
    value, [JFrac] any other finite one, by its exact value.  (The
    infinities, which [JSON.parse] yields for a literal out of the double
    range, are not modelled.) *)
#[warnings="-register-all"]
Inductive jsval : Type :=
| JUndefined
| JNull
| JBool (b : bool)
| JNum (n : Z)
| JFrac (q : Q)
| JStr (s : string)
| JArr (items : list jsval)
| JObj (fields : list (string * jsval)).

(** The storage classes a column of [seo] can hold here (no BLOB). *)
Inductive sqlval : Type :=
| SNull
| SInt (n : Z)
| SReal (q : Q)
| SText (s : string).

(** What [res.json] serialises. *)
#[warnings="-register-all"]
Inductive json : Type :=
| JsonNull
| JsonBool (b : bool)
| JsonNum (n : Z)
| JsonFrac (q : Q)
| JsonStr (s : string)
| JsonArr (items : list json)
| JsonObj (fields : list (string * json)).

#[global] Instance Q_eq_dec : EqDecision Q.
Proof. solve_decision. Defined.

#[global] Instance sqlval_eq_dec : EqDecision sqlval.
Proof. solve_decision. Defined.

(** JavaScript truthiness, and [a || b]. *)
Definition truthy (v : jsval) : bool :=
  match v with
  | JUndefined | JNull => false
  | JBool b => b
  | JNum n => negb (n =? 0)
  | JFrac q => negb (Qnum q =? 0)
  | JStr s => negb (String.eqb s "")
  | JArr _ | JObj _ => true
  end.

Definition js_or (a b : jsval) : jsval := if truthy a then a else b.

(** [const { k } = req.body]: property lookup, [undefined] when absent. *)
Definition prop (body : gmap string jsval) (k : string) : jsval :=
  default JUndefined (body !! k).

(** Property lookup in a serialised object. *)
Fixpoint assoc (k : string) (fields : list (string * json)) : option json :=
  match fields with
  | [] => None
  | (k', v) :: rest => if String.eqb k k' then Some v else assoc k rest
  end.

Definition field (k : string) (o : json) : option json :=
  match o with
  | JsonObj fields => assoc k fields
  | _ => None
  end.

(** ** Errors and fallible computations *)

(** What the gateway, the binder of better-sqlite3 and the engine throw. *)
Inductive error : Type :=
| NotInitialized                     (* getDatabase: db is unset *)
| BindTypeError                      (* a value the binder does not bind *)
| BindObjectError                    (* a second plain object *)
| TooFewValues                       (* fewer values than parameters *)
| TooManyValues                      (* more values than parameters *)
| NotNullViolation (column : string) (* NOT NULL constraint failed *)
| UniqueViolation (column : string)  (* UNIQUE constraint failed *)
| EngineError (msg : string).        (* any other SqliteError *)

(** [error.message] *)
Definition message (e : error) : string :=
  match e with
  | NotInitialized => "Database not initialized. Call initializeDatabase() first."
  | BindTypeError =>
      "SQLite3 can only bind numbers, strings, bigints, buffers, and null"
  | BindObjectError =>
      "You cannot specify named parameters in two different objects"
  | TooFewValues => "Too few parameter values were provided"
  | TooManyValues => "Too many parameter values were provided"
  | NotNullViolation c => ("NOT NULL constraint failed: " ++ c)%string
  | UniqueViolation c => ("UNIQUE constraint failed: " ++ c)%string
  | EngineError m => m
  end.

Inductive Result (A : Type) : Type :=
| Ok (a : A)
| Throw (e : error).

Arguments Ok {A} a.
Arguments Throw {A} e.

#[global] Instance Result_ret : MRet Result := @Ok.

#[global] Instance Result_bind : MBind Result :=
  fun A B f m => match m with Ok a => f a | Throw e => Throw e end.

(** [try { body } catch (error) { handler }] around a computation whose
    result is the state the block leaves. *)
Definition try_catch {A} (body : Result A) (handler : error -> A) : A :=
  match body with
  | Ok a => a
  | Throw e => handler e
  end.

(** ** The storage gateway: src/config/database.js *)

Section Gateway.

(** The connection object [new Database(...)] returns. *)
Context {Handle : Type}.

(** What the environment does at each step of one call of
    [initializeDatabase]: opening the file, CREATE TABLE IF NOT EXISTS, and
    ALTER TABLE seo ADD COLUMN content. *)
Record init_env : Type := InitEnv {
  open_store : Result Handle;
  create_table : Result unit;
  add_content_column : Result unit
}.

(** A computation over the module-level variable [let db]. *)
Definition GW (A : Type) : Type := option Handle -> option Handle * Result A.

Definition gw_ret {A} (a : A) : GW A := fun db => (db, Ok a).

Definition gw_throw {A} (e : error) : GW A := fun db => (db, Throw e).

Definition gw_bind {A B} (m : GW A) (k : A -> GW B) : GW B :=
  fun db =>
    match m db with
    | (db', Ok a) => k a db'
    | (db', Throw e) => (db', Throw e)
    end.

Definition gw_try {A} (body : GW A) (handler : error -> GW A) : GW A :=
  fun db =>
    match body db with
    | (db', Ok a) => (db', Ok a)
    | (db', Throw e) => handler e db'
    end.

(** A call into the library: its outcome is the environment's. *)
Definition gw_call {A} (outcome : Result A) : GW A := fun db => (db, outcome).

(** [db = h] *)
Definition gw_assign (h : Handle) : GW unit := fun _ => (Some h, Ok tt).

(** [return db] in the body of [initializeDatabase], where [db] was
    assigned [h] on this path. *)
Definition gw_return_db (h : Handle) : GW Handle :=
  fun db => (db, Ok (default h db)).

Notation "x <- m ;; k" := (gw_bind m (fun x => k))
  (at level 100, m at next level, right associativity).

Definition initializeDatabase (env : init_env) : GW Handle :=
  gw_try
    (h <- gw_call (open_store env) ;;
     _ <- gw_assign h ;;
     _ <- gw_call (create_table env) ;;
     _ <- gw_try (gw_call (add_content_column env))
                 (fun _ => gw_ret tt) ;;
     gw_return_db h)
    (fun error => gw_throw error).

Definition getDatabase : GW Handle :=
  fun db =>
    match db with
    | None => (db, Throw NotInitialized)
    | Some h => (db, Ok h)
    end.

(** A history of the module: the calls of [initializeDatabase] made so far,
    oldest first, starting from the unset variable. *)
Fixpoint init_history (envs : list init_env) (db : option Handle)
  : option Handle * list (Result Handle) :=
  match envs with
  | [] => (db, [])
  | env :: rest =>
      let '(db1, r) := initializeDatabase env db in
      let '(db2, rs) := init_history rest db1 in
      (db2, r :: rs)
  end.

Definition completed (r : Result Handle) : bool :=
  match r with Ok _ => true | Throw _ => false end.

Definition opened (env : init_env) : bool :=
  match open_store env with Ok _ => true | Throw _ => false end.

End Gateway.

Arguments init_env Handle : clear implicits.
Arguments GW Handle A : clear implicits.

(** ** The [seo] table: the schema of src/config/database.js *)

(** The integer a number is, if it is one. *)
Definition integral (q : Q) : option Z :=
  if decide (Qnum q mod Z.pos (Qden q) = 0)
  then Some (Qnum q / Z.pos (Qden q))
  else None.

(** SQLite's conversions between TEXT and numbers, which column affinity
    applies to a bound value: [text_of_number q] is the TEXT the number [q]
    bound to a TEXT column is stored as, [number_of_text s] is [Some q] when
    the text [s] reads as the number [q].  The development is parametric in
    them: no property below depends on how SQLite spells a number or reads
    one. *)
Class SqliteCoercion : Type := {
  text_of_number : Q -> string;
  number_of_text : string -> option Q
}.

Definition text_of_int `{SqliteCoercion} (n : Z) : string :=
  text_of_number (inject_Z n).

Definition int_of_text `{SqliteCoercion} (s : string) : option Z :=
  number_of_text s ≫= integral.

(** Decimal notation, to evaluate the handlers on the examples below: a
    text reads as a number when it is an optional minus sign, digits, and
    optionally a point and more digits; a number is spelled with its
    decimals, at least one, as SQLite spells a REAL of up to fifteen
    significant digits.  (SQLite also reads texts with spaces around them or
    with an exponent; here they read as no number.) *)
Definition digits_value (s : string) : option Z :=
  if String.eqb s "" then None else Z.of_uint <$> NilEmpty.uint_of_string s.

Definition unsigned_of_text (s : string) : option Q :=
  match String.index 0 "." s with
  | None => inject_Z <$> digits_value s
  | Some i =>
      let whole := substring 0 i s in
      let frac := substring (S i) (String.length s) s in
      w ← digits_value whole;
      f ← (if String.eqb frac "" then Some 0 else digits_value frac);
      Some (Qred (Qmake (w * 10 ^ Z.of_nat (String.length frac) + f)
                        (Z.to_pos (10 ^ Z.of_nat (String.length frac)))))
  end.

Definition decimal_of_text (s : string) : option Q :=
  match s with
  | String "-" rest => Qopp <$> unsigned_of_text rest
  | _ => unsigned_of_text s
  end.

Fixpoint scale (fuel : nat) (n d : Z) (k : nat) : nat * Z :=
  match fuel with
  | O => (k, n / d)
  | S fuel' => if n mod d =? 0 then (k, n / d) else scale fuel' (n * 10) d (S k)
  end.

Fixpoint pad (k : nat) (s : string) : string :=
  match k with
  | O => s
  | S k' => if (String.length s <=? k')%nat then pad k' ("0" ++ s)%string else s
  end.

Definition text_of_decimal (q : Q) : string :=
  let '(k, m) := scale 17 (Z.abs (Qnum q)) (Z.pos (Qden q)) 0 in
  let sign := if Qnum q <? 0 then "-" else "" in
  let u := 10 ^ Z.of_nat k in
  let whole := NilZero.string_of_uint (N.to_uint (Z.to_N (m / u))) in
  let frac := match k with
              | O => "0"
              | _ => pad k (NilZero.string_of_uint (N.to_uint (Z.to_N (m mod u))))
              end in
  (sign ++ whole ++ "." ++ frac)%string.

Definition decimal_coercion : SqliteCoercion := {|
  text_of_number := text_of_decimal;
  number_of_text := decimal_of_text
|}.

(** One row of [seo], without its key [id].  The TEXT NOT NULL columns hold
    a text, the other TEXT columns a text or NULL; [seoScore] (INTEGER) and
    [isPublished] (BOOLEAN, numeric affinity) hold whatever was stored; the
    two DATETIME columns hold the text CURRENT_TIMESTAMP produced. *)
Record SeoRow : Type := mkSeoRow {
  pagePath : string;
  pageTitle : string;
  metaTitle : string;
  metaDescription : string;
  content : option string;
  keywords : option string;
  canonicalUrl : option string;
  ogTitle : option string;
  ogDescription : option string;
  ogImage : option string;
  twitterTitle : option string;
  twitterDescription : option string;
  twitterImage : option string;
  robots : option string;
  seoScore : sqlval;
  isPublished : sqlval;
  createdAt : string;
  updatedAt : string
}.

(** The state behind the connection: the table keyed by [id], the
    [sqlite_sequence] entry AUTOINCREMENT keeps for it (the largest [id] ever
    assigned), and the connection's last insert rowid. *)
Record Database : Type := mkDatabase {
  seo : gmap Z SeoRow;
  sqlite_sequence : Z;
  last_insert_rowid : Z
}.

(** What [Statement.run] returns. *)
Record RunResult : Type := mkRunResult {
  changes : Z;
  lastInsertRowid : Z
}.

Record response : Type := respond {
  status : Z;
  body : json
}.

(** The value the binder of better-sqlite3 binds for one JavaScript value:
    [undefined] and [null] bind NULL, a number and a string bind themselves;
    a boolean, an array and an object are not values it binds. *)
Definition bind (v : jsval) : option sqlval :=
  match v with
  | JUndefined | JNull => Some SNull
  | JNum n => Some (SInt n)
  | JFrac q => Some (SReal q)
  | JStr s => Some (SText s)
  | JBool _ | JArr _ | JObj _ => None
  end.

(** Binding one value to the next anonymous parameter of a statement with
    [limit] parameters, [bound] being the values bound so far: a TypeError
    for a value that cannot be bound, a RangeError past the last parameter. *)
Definition bind_value (limit : nat) (v : jsval) (bound : list sqlval)
  : Result (list sqlval) :=
  match bind v with
  | None => Throw BindTypeError
  | Some x =>
      if decide (length bound < limit)%nat
      then Ok (bound ++ [x])%list
      else Throw TooManyValues
  end.

(** An array among the arguments binds its elements one by one. *)
Fixpoint bind_array (limit : nat) (items : list jsval) (bound : list sqlval)
  : Result (list sqlval) :=
  match items with
  | [] => Ok bound
  | v :: rest =>
      match bind_value limit v bound with
      | Throw e => Throw e
      | Ok bound' => bind_array limit rest bound'
      end
  end.

(** One argument of [run].  An array is spread; a plain object carries named
    parameters, of which these statements have none, so the first one binds
    nothing and a second one is a TypeError ([seen] tells whether one came
    before); anything else is one value. *)
Definition bind_arg (limit : nat) (v : jsval) (seen : bool)
    (bound : list sqlval) : Result (bool * list sqlval) :=
  match v with
  | JArr items =>
      match bind_array limit items bound with
      | Throw e => Throw e
      | Ok bound' => Ok (seen, bound')
      end
  | JObj _ => if seen then Throw BindObjectError else Ok (true, bound)
  | _ =>
      match bind_value limit v bound with
      | Throw e => Throw e
      | Ok bound' => Ok (seen, bound')
      end
  end.

(** The arguments of [run], left to right.  At the end every parameter must
    be bound. *)
Fixpoint bind_args (limit : nat) (args : list jsval) (seen : bool)
    (bound : list sqlval) : Result (list sqlval) :=
  match args with
  | [] => if decide (length bound = limit) then Ok bound else Throw TooFewValues
  | v :: rest =>
      match bind_arg limit v seen bound with
      | Throw e => Throw e
      | Ok (seen', bound') => bind_args limit rest seen' bound'
      end
  end.

Definition bind_all (limit : nat) (args : list jsval) : Result (list sqlval) :=
  bind_args limit args false [].

(** A 64-bit integer as the JavaScript number better-sqlite3 makes of it, in
    [lastInsertRowid] and in the columns of a row it returns: the nearest
    double, ties to even.  It is the integer itself up to 2^53. *)
Definition double_of_int (n : Z) : Z :=
  let a := Z.abs n in
  let k := Z.log2 a - 52 in
  if k <=? 0 then n
  else
    let u := 2 ^ k in
    let q := a / u in
    let r := a mod u in
    let h := u / 2 in
    let q' := if (h <? r) || ((r =? h) && Z.odd q) then q + 1 else q in
    Z.sgn n * (q' * u).

(** The largest rowid; past it AUTOINCREMENT fails with SQLITE_FULL. *)
Definition rowid_limit : Z := 2 ^ 63 - 1.

(** ORDER BY createdAt DESC compares the stored texts byte by byte. *)
Definition created_desc (x y : Z * SeoRow) : Prop :=
  String.leb (createdAt y.2) (createdAt x.2) = true.

#[global] Instance created_desc_dec x y : Decision (created_desc x y).
Proof. unfold created_desc. apply _. Defined.

Definition max_rowid (m : gmap Z SeoRow) : Z :=
  foldr Z.max 0 (map_to_list m).*1.

(** The rowid AUTOINCREMENT picks: one more than the largest ever used. *)
Definition next_rowid (db : Database) : Z :=
  Z.max (max_rowid (seo db)) (sqlite_sequence db) + 1.

(** Is there a row, other than the one keyed [self], with this [pagePath]? *)
Definition path_taken (m : gmap Z SeoRow) (self : option Z) (p : string) : bool :=
  bool_decide (map_Exists (fun j r => Some j <> self /\ pagePath r = p) m).

Definition is_published (r : SeoRow) : bool :=
  bool_decide (isPublished r = SInt 1).

(** A column value as better-sqlite3 hands it to JavaScript: an INTEGER
    becomes a number, that is a double. *)
Definition json_of_sql (v : sqlval) : json :=
  match v with
  | SNull => JsonNull
  | SInt n => JsonNum (double_of_int n)
  | SReal q => JsonFrac q
  | SText s => JsonStr s
  end.

Definition json_of_text (o : option string) : json :=
  from_option JsonStr JsonNull o.

(** A row as [SELECT *] returns it, columns in the order of the schema. *)
Definition row_json (ir : Z * SeoRow) : json :=
  let r := ir.2 in
  JsonObj [
    ("id", JsonNum (double_of_int ir.1));
    ("pagePath", JsonStr (pagePath r));
    ("pageTitle", JsonStr (pageTitle r));
    ("metaTitle", JsonStr (metaTitle r));
    ("metaDescription", JsonStr (metaDescription r));
    ("content", json_of_text (content r));
    ("keywords", json_of_text (keywords r));
    ("canonicalUrl", json_of_text (canonicalUrl r));
    ("ogTitle", json_of_text (ogTitle r));
    ("ogDescription", json_of_text (ogDescription r));
    ("ogImage", json_of_text (ogImage r));
    ("twitterTitle", json_of_text (twitterTitle r));
    ("twitterDescription", json_of_text (twitterDescription r));
    ("twitterImage", json_of_text (twitterImage r));
    ("robots", json_of_text (robots r));
    ("seoScore", json_of_sql (seoScore r));
    ("isPublished", json_of_sql (isPublished r));
    ("createdAt", JsonStr (createdAt r));
    ("updatedAt", JsonStr (updatedAt r))
  ].

(** A property whose value may be [undefined]: [JSON.stringify] omits it. *)
Definition optional_field (k : string) (o : option json) : list (string * json) :=
  match o with
  | Some v => [(k, v)]
  | None => []
  end.

(** ** The prepared statements of src/server.js

    Each statement is evaluated by its meaning on the table.  The failures
    modelled are the binder's, the ones the schema causes on INSERT and
    UPDATE (NOT NULL and UNIQUE) and the end of the rowid range on INSERT,
    all raised before anything is written.  Failures of the environment (an
    I/O error, a full disk) are not modelled; in a handler they would take
    the [catch] branch like any other throw.  better-sqlite3 is synchronous
    and no handler awaits, so a handler runs to its end before the next
    request is served. *)

Section Statements.

Context `{SqliteCoercion}.

(** TEXT affinity: a number is stored as its text. *)
Definition text_affinity (v : sqlval) : option string :=
  match v with
  | SNull => None
  | SInt n => Some (text_of_int n)
  | SReal q => Some (text_of_number q)
  | SText s => Some s
  end.

(** A number as an INTEGER column stores it: as an integer if it is one. *)
Definition stored_number (q : Q) : sqlval :=
  from_option SInt (SReal q) (integral q).

(** INTEGER affinity: a text that reads as a number is stored as it. *)
Definition integer_affinity (v : sqlval) : sqlval :=
  match v with
  | SText s => from_option stored_number (SText s) (number_of_text s)
  | SReal q => stored_number q
  | _ => v
  end.

(** The rowid a value compared with the INTEGER PRIMARY KEY [id] denotes. *)
Definition rowid_of (v : sqlval) : option Z :=
  match v with
  | SNull => None
  | SInt n => Some n
  | SReal q => integral q
  | SText s => int_of_text s
  end.

Definition not_null (column : string) (v : sqlval) : Result string :=
  match text_affinity v with
  | Some s => Ok s
  | None => Throw (NotNullViolation column)
  end.

(** The row the fifteen bound values of INSERT and UPDATE make, with the
    NOT NULL constraints checked in the order of the schema. *)
Definition new_row (vs : list sqlval) (published : sqlval)
    (created updated : string) : Result SeoRow :=
  match vs with
  | [vPagePath; vPageTitle; vMetaTitle; vMetaDescription; vContent;
     vKeywords; vCanonicalUrl; vOgTitle; vOgDescription; vOgImage;
     vTwitterTitle; vTwitterDescription; vTwitterImage; vRobots; vSeoScore] =>
      p ← not_null "seo.pagePath" vPagePath;
      t ← not_null "seo.pageTitle" vPageTitle;
      mt ← not_null "seo.metaTitle" vMetaTitle;
      md ← not_null "seo.metaDescription" vMetaDescription;
      mret {|
        pagePath := p; pageTitle := t; metaTitle := mt; metaDescription := md;
        content := text_affinity vContent;
        keywords := text_affinity vKeywords;
        canonicalUrl := text_affinity vCanonicalUrl;
        ogTitle := text_affinity vOgTitle;
        ogDescription := text_affinity vOgDescription;
        ogImage := text_affinity vOgImage;
        twitterTitle := text_affinity vTwitterTitle;
        twitterDescription := text_affinity vTwitterDescription;
        twitterImage := text_affinity vTwitterImage;
        robots := text_affinity vRobots;
        seoScore := integer_affinity vSeoScore;
        isPublished := published;
        createdAt := created;
        updatedAt := updated
      |}
  | _ => Throw TooFewValues
  end.

(** SELECT * FROM seo ORDER BY createdAt DESC, [.all()] *)
Definition select_all (db : Database) : list (Z * SeoRow) :=
  merge_sort created_desc (map_to_list (seo db)).

(** SELECT * FROM seo WHERE pagePath = ? AND isPublished = 1, [.get(p)] *)
Definition select_published (db : Database) (p : string) : option (Z * SeoRow) :=
  List.find (fun ir => String.eqb (pagePath ir.2) p && is_published ir.2)
            (map_to_list (seo db)).

(** SELECT * FROM seo WHERE id = ?, [.get(v)] *)
Definition select_by_id (db : Database) (v : sqlval) : option (Z * SeoRow) :=
  i ← rowid_of v;
  r ← seo db !! i;
  Some (i, r).

(** INSERT INTO seo (...) VALUES (?, ..., ?, 1, CURRENT_TIMESTAMP,
    CURRENT_TIMESTAMP), [.run(...)] with the clock reading [now].  The rowid
    is allocated first, then NOT NULL and UNIQUE are checked. *)
Definition run_insert (db : Database) (args : list jsval) (now : string)
  : Result (Database * RunResult) :=
  vs ← bind_all 15 args;
  if rowid_limit <=? Z.max (max_rowid (seo db)) (sqlite_sequence db)
  then Throw (EngineError "database or disk is full")
  else
    row ← new_row vs (SInt 1) now now;
    if path_taken (seo db) None (pagePath row)
    then Throw (UniqueViolation "seo.pagePath")
    else
      let id := next_rowid db in
      mret ({| seo := <[id := row]> (seo db);
               sqlite_sequence := id;
               last_insert_rowid := id |},
            {| changes := 1; lastInsertRowid := double_of_int id |}).

(** UPDATE seo SET (the fifteen columns) = ?, updatedAt = CURRENT_TIMESTAMP
    WHERE id = ?, [.run(...)]: the last bound value is the [id]. *)
Definition run_update (db : Database) (args : list jsval) (now : string)
  : Result (Database * RunResult) :=
  vs ← bind_all 16 args;
  match vs with
  | [v1; v2; v3; v4; v5; v6; v7; v8; v9; v10; v11; v12; v13; v14; v15; vId] =>
      match rowid_of vId ≫= fun i => (fun r => (i, r)) <$> seo db !! i with
      | None =>
          mret (db, {| changes := 0;
                       lastInsertRowid := double_of_int (last_insert_rowid db) |})
      | Some (i, old) =>
          row ← new_row [v1; v2; v3; v4; v5; v6; v7; v8; v9; v10; v11; v12;
                         v13; v14; v15]
                        (isPublished old) (createdAt old) now;
          if path_taken (seo db) (Some i) (pagePath row)
          then Throw (UniqueViolation "seo.pagePath")
          else
            mret ({| seo := <[i := row]> (seo db);
                     sqlite_sequence := sqlite_sequence db;
                     last_insert_rowid := last_insert_rowid db |},
                  {| changes := 1;
                     lastInsertRowid := double_of_int (last_insert_rowid db) |})
      end
  | _ => Throw TooFewValues
  end.

(** DELETE FROM seo WHERE id = ?, [.run(id)] *)
Definition run_delete (db : Database) (args : list jsval)
  : Result (Database * RunResult) :=
  vs ← bind_all 1 args;
  match vs with
  | [vId] =>
      match rowid_of vId ≫= fun i => (fun r => (i, r)) <$> seo db !! i with
      | None =>
          mret (db, {| changes := 0;
                       lastInsertRowid := double_of_int (last_insert_rowid db) |})
      | Some (i, _) =>
          mret ({| seo := delete i (seo db);
                   sqlite_sequence := sqlite_sequence db;
                   last_insert_rowid := last_insert_rowid db |},
                {| changes := 1;
                   lastInsertRowid := double_of_int (last_insert_rowid db) |})
      end
  | _ => Throw TooFewValues
  end.

End Statements.

(** ** The SEO routes of src/server.js *)

Section Handlers.

Context `{SqliteCoercion}.

(** The body every [catch (error)] block sends with status 500. *)
Definition failure (error : error) : json :=
  JsonObj [("success", JsonBool false); ("error", JsonStr (message error))].

Definition not_found : json :=
  JsonObj [("success", JsonBool false); ("error", JsonStr "SEO data not found")].

(** The object literal get-by-path sends when no row is found. *)
Definition fallback (pagePath : string) : json :=
  JsonObj [
    ("pagePath", JsonStr pagePath);
    ("metaTitle", JsonStr ("MayDiv - " ++ pagePath)%string);
    ("metaDescription", JsonStr "Digital Agency Services");
    ("keywords", JsonStr "digital agency, web design, development");
    ("canonicalUrl", JsonStr ("https://maydiv.com" ++ pagePath)%string);
    ("ogTitle", JsonStr ("MayDiv - " ++ pagePath)%string);
    ("ogDescription", JsonStr "Digital Agency Services");
    ("ogImage", JsonStr "https://maydiv.com/og-image.jpg");
    ("twitterCard", JsonStr "summary_large_image");
    ("robots", JsonStr "index, follow");
    ("seoScore", JsonNum 85);
    ("isPublished", JsonBool true)
  ].

(** GET /api/v1/seo *)
Definition get_seo (g : option Database) : response * option Database :=
  try_catch
    (db ← (getDatabase g).2;
     let seoData := select_all db in
     mret (respond 200 (JsonObj [("success", JsonBool true);
                                 ("seoData", JsonArr (row_json <$> seoData))]),
           g))
    (fun error => (respond 500 (failure error), g)).

(** GET /api/v1/seo/page/:pagePath *)
Definition get_seo_page (pagePath : string) (g : option Database)
  : response * option Database :=
  try_catch
    (db ← (getDatabase g).2;
     let seoData := select_published db pagePath in
     match seoData with
     | Some row =>
         mret (respond 200 (JsonObj [("success", JsonBool true);
                                     ("seoData", row_json row)]),
               g)
     | None =>
         mret (respond 200 (JsonObj [("success", JsonBool true);
                                     ("seoData", fallback pagePath)]),
               g)
     end)
    (fun error => (respond 500 (failure error), g)).

(** POST /api/v1/seo; [now] is what CURRENT_TIMESTAMP reads. *)
Definition post_seo (body : gmap string jsval) (now : string)
    (g : option Database) : response * option Database :=
  try_catch
    (let pagePath := prop body "pagePath" in
     let pageTitle := prop body "pageTitle" in
     let metaTitle := prop body "metaTitle" in
     let metaDescription := prop body "metaDescription" in
     let content := prop body "content" in
     let keywords := prop body "keywords" in
     let canonicalUrl := prop body "canonicalUrl" in
     let ogTitle := prop body "ogTitle" in
     let ogDescription := prop body "ogDescription" in
     let ogImage := prop body "ogImage" in
     let twitterTitle := prop body "twitterTitle" in
     let twitterDescription := prop body "twitterDescription" in
     let twitterImage := prop body "twitterImage" in
     let robots := prop body "robots" in
     let seoScore := prop body "seoScore" in
     db ← (getDatabase g).2;
     '(db', result) ← run_insert db
        [pagePath; pageTitle; metaTitle; metaDescription; content; keywords;
         canonicalUrl; ogTitle; ogDescription; ogImage;
         twitterTitle; twitterDescription; twitterImage; robots;
         js_or seoScore (JNum 0)] now;
     let createdRecord := select_by_id db' (SInt (lastInsertRowid result)) in
     mret (respond 201
             (JsonObj ([("success", JsonBool true);
                        ("message", JsonStr "SEO data created successfully")]
                       ++ optional_field "seoData" (row_json <$> createdRecord))),
           Some db'))
    (fun error => (respond 500 (failure error), g)).

(** PUT /api/v1/seo/:id *)
Definition put_seo (id : string) (body : gmap string jsval) (now : string)
    (g : option Database) : response * option Database :=
  try_catch
    (let pagePath := prop body "pagePath" in
     let pageTitle := prop body "pageTitle" in
     let metaTitle := prop body "metaTitle" in
     let metaDescription := prop body "metaDescription" in
     let content := prop body "content" in
     let keywords := prop body "keywords" in
     let canonicalUrl := prop body "canonicalUrl" in
     let ogTitle := prop body "ogTitle" in
     let ogDescription := prop body "ogDescription" in
     let ogImage := prop body "ogImage" in
     let twitterTitle := prop body "twitterTitle" in
     let twitterDescription := prop body "twitterDescription" in
     let twitterImage := prop body "twitterImage" in
     let robots := prop body "robots" in
     let seoScore := prop body "seoScore" in
     db ← (getDatabase g).2;
     '(db', result) ← run_update db
        [pagePath; pageTitle; metaTitle; metaDescription; content; keywords;
         canonicalUrl; ogTitle; ogDescription; ogImage;
         twitterTitle; twitterDescription; twitterImage; robots;
         js_or seoScore (JNum 0);
         JStr id] now;
     if changes result =? 0
     then mret (respond 404 not_found, Some db')
     else
       let updatedRecord := select_by_id db' (SText id) in
       mret (respond 200
               (JsonObj ([("success", JsonBool true);
                          ("message", JsonStr "SEO data updated successfully")]
                         ++ optional_field "seoData" (row_json <$> updatedRecord))),
             Some db'))
    (fun error => (respond 500 (failure error), g)).

(** DELETE /api/v1/seo/:id *)
Definition delete_seo (id : string) (g : option Database)
  : response * option Database :=
  try_catch
    (db ← (getDatabase g).2;
     '(db', result) ← run_delete db [JStr id];
     if changes result =? 0
     then mret (respond 404 not_found, Some db')
     else
       mret (respond 200
               (JsonObj [("success", JsonBool true);
                         ("message", JsonStr "SEO data deleted successfully")]),
             Some db'))
    (fun error => (respond 500 (failure error), g)).

(** A request to one of the five routes, and the router. *)
Inductive request : Type :=
| GetSeo
| GetSeoPage (pagePath : string)
| PostSeo (body : gmap string jsval)
| PutSeo (id : string) (body : gmap string jsval)
| DeleteSeo (id : string).

Definition serve (now : string) (req : request) (g : option Database)
  : response * option Database :=
  match req with
  | GetSeo => get_seo g
  | GetSeoPage p => get_seo_page p g
  | PostSeo b => post_seo b now g
  | PutSeo id b => put_seo id b now g
  | DeleteSeo id => delete_seo id g
  end.


Definition state_after (reqs : list (string * request)) (g : option Database)
  : option Database :=
  foldl (fun g nr => (serve nr.1 nr.2 g).2) g reqs.

(** The process after [startServer]: it listens, with the gateway state
    [initializeDatabase] left, or it has exited with a code. *)
Inductive process : Type :=
| Listening (g : option Database)
| Exited (code : Z).

(** [startServer]: requests are served only once [initializeDatabase]
    has returned; if it throws, the process exits with code 1.  The store
    the environment's open yields stands for the store as the handlers find
    it, after the two schema statements.  (A failure of [app.listen] itself
    is not modelled.) *)
Definition startServer (env : init_env Database) : process :=
  match initializeDatabase env None with
  | (g, Ok _) => Listening g
  | (_, Throw _) => Exited 1
  end.

End Handlers.

(** ** Vocabulary of the properties *)

Section GatewayVocabulary.

Context {Handle : Type}.

Definition created (env : init_env Handle) : bool :=
  match create_table env with Ok _ => true | Throw _ => false end.

(** The handle of the most recent call that opened the store, if any. *)
Definition last_opened (envs : list (init_env Handle)) (db : option Handle)
  : option Handle :=
  foldl (fun d env => match open_store env with Ok h => Some h | Throw _ => d end)
        db envs.

End GatewayVocabulary.

(** The fifteen values both INSERT and UPDATE bind, in their order. *)
Definition seo_args (body : gmap string jsval) : list jsval :=
  [prop body "pagePath"; prop body "pageTitle"; prop body "metaTitle";
   prop body "metaDescription"; prop body "content"; prop body "keywords";
   prop body "canonicalUrl"; prop body "ogTitle"; prop body "ogDescription";
   prop body "ogImage"; prop body "twitterTitle";
   prop body "twitterDescription"; prop body "twitterImage";
   prop body "robots"; js_or (prop body "seoScore") (JNum 0)].

(** A value the binder binds as one value: absent, [null], a number or a
    string. *)
Definition scalar (v : jsval) : Prop :=
  match v with
  | JBool _ | JArr _ | JObj _ => False
  | _ => True
  end.

#[global] Instance scalar_dec v : Decision (scalar v).
Proof. destruct v; simpl; apply _. Defined.

(** What the binder binds for a scalar (NULL stands in for the values it
    refuses, which never reach a column). *)
Definition sql_of_js (v : jsval) : sqlval := default SNull (bind v).

(** [pagePath] is unique across the rows of the table. *)
Definition unique_paths (m : gmap Z SeoRow) : Prop :=
  forall i j r s,
    m !! i = Some r -> m !! j = Some s -> pagePath r = pagePath s -> i = j.

(** [sqlite_sequence] is at least every [id] in the table. *)
Definition sequence_bounds (db : Database) : Prop :=
  forall i r, seo db !! i = Some r -> i <= sqlite_sequence db.

(** How many rows of the table carry the path [p]. *)
Definition rows_with_path (m : gmap Z SeoRow) (p : string) : nat :=
  length (filter (fun ir : Z * SeoRow => pagePath ir.2 = p) (map_to_list m)).

(** How many entries of a result list carry the [id] [i]. *)
Definition occurrences (i : Z) (rows : list (Z * SeoRow)) : nat :=
  length (filter (fun ir : Z * SeoRow => ir.1 = i) rows).

Section ColumnVocabulary.

Context `{SqliteCoercion}.

(** What a TEXT column, and the INTEGER column [seoScore], store for a
    scalar of the body; a TEXT column stores nothing for any other value. *)
Definition column_text (v : jsval) : option string :=
  bind v ≫= text_affinity.

Definition column_int (v : jsval) : sqlval :=
  integer_affinity (sql_of_js v).

(** The row UPDATE and INSERT write for [body]: the fifteen columns from
    the body, the other three as given. *)
Definition row_of_body (body : gmap string jsval) (p t mt md : string)
    (published : sqlval) (created updated : string) : SeoRow :=
  {| pagePath := p; pageTitle := t; metaTitle := mt; metaDescription := md;
     content := column_text (prop body "content");
     keywords := column_text (prop body "keywords");
     canonicalUrl := column_text (prop body "canonicalUrl");
     ogTitle := column_text (prop body "ogTitle");
     ogDescription := column_text (prop body "ogDescription");
     ogImage := column_text (prop body "ogImage");
     twitterTitle := column_text (prop body "twitterTitle");
     twitterDescription := column_text (prop body "twitterDescription");
     twitterImage := column_text (prop body "twitterImage");
     robots := column_text (prop body "robots");
     seoScore := column_int (js_or (prop body "seoScore") (JNum 0));
     isPublished := published;
     createdAt := created;
     updatedAt := updated |}.

End ColumnVocabulary.

(** What one statement can do to the store: nothing, insert a row under
    the next rowid, replace the row of an existing [id] keeping its
    [isPublished] and [createdAt], or delete a row. *)
Inductive store_step (db : Database) : Database -> Prop :=
| step_none : store_step db db
| step_insert row :
    path_taken (seo db) None (pagePath row) = false ->
    store_step db {| seo := <[next_rowid db := row]> (seo db);
                     sqlite_sequence := next_rowid db;
                     last_insert_rowid := next_rowid db |}
| step_update i old row :
    seo db !! i = Some old ->
    isPublished row = isPublished old ->
    createdAt row = createdAt old ->
    path_taken (seo db) (Some i) (pagePath row) = false ->
    store_step db {| seo := <[i := row]> (seo db);
                     sqlite_sequence := sqlite_sequence db;
                     last_insert_rowid := last_insert_rowid db |}
| step_delete i :
    store_step db {| seo := delete i (seo db);
                     sqlite_sequence := sqlite_sequence db;
                     last_insert_rowid := last_insert_rowid db |}.

(** The ways the router answers a request on an opened store, read off the
    branches of the five handlers: the answer, and the store it leaves.
    [extra] is the [seoData] property, present when the record was read
    back. *)
Inductive answer (now : string) (db : Database)
  : request -> response -> Database -> Prop :=
| answer_list :
    answer now db GetSeo
      (respond 200 (JsonObj [("success", JsonBool true);
                             ("seoData", JsonArr (row_json <$> select_all db))]))
      db
| answer_page_found p row :
    select_published db p = Some row ->
    answer now db (GetSeoPage p)
      (respond 200 (JsonObj [("success", JsonBool true);
                             ("seoData", row_json row)]))
      db
| answer_page_fallback p :
    select_published db p = None ->
    answer now db (GetSeoPage p)
      (respond 200 (JsonObj [("success", JsonBool true);
                             ("seoData", fallback p)]))
      db
| answer_created b row extra :
    isPublished row = SInt 1 ->
    createdAt row = now ->
    updatedAt row = now ->
    path_taken (seo db) None (pagePath row) = false ->
    answer now db (PostSeo b)
      (respond 201
         (JsonObj ([("success", JsonBool true);
                    ("message", JsonStr "SEO data created successfully")]
                   ++ extra)))
      {| seo := <[next_rowid db := row]> (seo db);
         sqlite_sequence := next_rowid db;
         last_insert_rowid := next_rowid db |}
| answer_updated id b i old row extra :
    seo db !! i = Some old ->
    isPublished row = isPublished old ->
    createdAt row = createdAt old ->
    updatedAt row = now ->
    path_taken (seo db) (Some i) (pagePath row) = false ->
    answer now db (PutSeo id b)
      (respond 200
         (JsonObj ([("success", JsonBool true);
                    ("message", JsonStr "SEO data updated successfully")]
                   ++ extra)))
      {| seo := <[i := row]> (seo db);
         sqlite_sequence := sqlite_sequence db;
         last_insert_rowid := last_insert_rowid db |}
| answer_deleted id i old :
    seo db !! i = Some old ->
    answer now db (DeleteSeo id)
      (respond 200
         (JsonObj [("success", JsonBool true);
                   ("message", JsonStr "SEO data deleted successfully")]))
      {| seo := delete i (seo db);
         sqlite_sequence := sqlite_sequence db;
         last_insert_rowid := last_insert_rowid db |}
| answer_update_missing id b :
    answer now db (PutSeo id b) (respond 404 not_found) db
| answer_delete_missing id :
    answer now db (DeleteSeo id) (respond 404 not_found) db
| answer_create_failed b e :
    answer now db (PostSeo b) (respond 500 (failure e)) db
| answer_update_failed id b e :
    answer now db (PutSeo id b) (respond 500 (failure e)) db
| answer_delete_failed id e :
    answer now db (DeleteSeo id) (respond 500 (failure e)) db.

(** How a column reads in a record of a response, stated apart from the
    serialiser: a text or [null], and a stored value as the number, the
    text or the [null] it is. *)
Definition shown_text (o : option string) : json :=
  match o with
  | Some s => JsonStr s
  | None => JsonNull
  end.

Definition shown_value (v : sqlval) : json :=
  match v with
  | SNull => JsonNull
  | SInt n => JsonNum (double_of_int n)
  | SReal q => JsonFrac q
  | SText s => JsonStr s
  end.

(** The record of a response shows the row [r] stored under [i]: each of
    its nineteen properties reads as the column of that name. *)
Definition presents (record : json) (i : Z) (r : SeoRow) : Prop :=
  field "id" record = Some (JsonNum (double_of_int i))
  /\ field "pagePath" record = Some (JsonStr (pagePath r))
  /\ field "pageTitle" record = Some (JsonStr (pageTitle r))
  /\ field "metaTitle" record = Some (JsonStr (metaTitle r))
  /\ field "metaDescription" record = Some (JsonStr (metaDescription r))
  /\ field "content" record = Some (shown_text (content r))
  /\ field "keywords" record = Some (shown_text (keywords r))
  /\ field "canonicalUrl" record = Some (shown_text (canonicalUrl r))
  /\ field "ogTitle" record = Some (shown_text (ogTitle r))
  /\ field "ogDescription" record = Some (shown_text (ogDescription r))
  /\ field "ogImage" record = Some (shown_text (ogImage r))
  /\ field "twitterTitle" record = Some (shown_text (twitterTitle r))
  /\ field "twitterDescription" record = Some (shown_text (twitterDescription r))
  /\ field "twitterImage" record = Some (shown_text (twitterImage r))
  /\ field "robots" record = Some (shown_text (robots r))
  /\ field "seoScore" record = Some (shown_value (seoScore r))
  /\ field "isPublished" record = Some (shown_value (isPublished r))
  /\ field "createdAt" record = Some (JsonStr (createdAt r))
  /\ field "updatedAt" record = Some (JsonStr (updatedAt r)).

(** The [createdAt] a record of a response carries. *)
Definition item_created (record : json) : option string :=
  match field "createdAt" record with
  | Some (JsonStr t) => Some t
  | _ => None
  end.

(** The records of a returned array come latest first: of two of them, the
    later one in the array was created no later than the earlier one. *)
Definition latest_first (items : list json) : Prop :=
  forall k l x y,
    (k < l)%nat -> items !! k = Some x -> items !! l = Some y ->
    exists tx ty,
      item_created x = Some tx /\ item_created y = Some ty
      /\ String.leb ty tx = true.

(** A field the body does not carry, or carries as [null]. *)
Definition missing (v : jsval) : Prop := v = JUndefined \/ v = JNull.

(** The fourteen TEXT fields a body is read for. *)
Definition text_fields : list string :=
  ["pagePath"; "pageTitle"; "metaTitle"; "metaDescription"; "content";
   "keywords"; "canonicalUrl"; "ogTitle"; "ogDescription"; "ogImage";
   "twitterTitle"; "twitterDescription"; "twitterImage"; "robots"].

(** A body whose fields the binder binds one value each: every TEXT field
    is absent, [null], a number or a string, and so is [seoScore], which may
    also be [false]. *)
Definition bindable (b : gmap string jsval) : Prop :=
  Forall (fun k => scalar (prop b k)) text_fields
  /\ (scalar (prop b "seoScore") \/ prop b "seoScore" = JBool false).

Section StoredVocabulary.

Context `{SqliteCoercion}.

(** The TEXT column [c] holds what the body's value [v] asks for: NULL for
    a missing field, the string itself, or the text of the number. *)
Definition stores_text (v : jsval) (c : option string) : Prop :=
  (missing v -> c = None)
  /\ (forall s, v = JStr s -> c = Some s)
  /\ (forall n, v = JNum n -> c = Some (text_of_number (inject_Z n)))
  /\ (forall q, v = JFrac q -> c = Some (text_of_number q)).

(** The column [seoScore] holds what [seoScore || 0] asks for: 0 for a
    falsy score, the number itself for an integer. *)
Definition stores_score (v : jsval) (x : sqlval) : Prop :=
  (v = JUndefined \/ v = JNull \/ v = JBool false \/ v = JNum 0 \/ v = JStr ""
   -> x = SInt 0)
  /\ (forall n, v = JNum n -> x = SInt n).

End StoredVocabulary.


(** The clock readings of a run never go back, starting from [t]. *)
Fixpoint clock_ordered (t : string) (reqs : list (string * request)) : Prop :=
  match reqs with
  | [] => True
  | (now, _) :: rest => String.leb t now = true /\ clock_ordered now rest
  end.

(** Every row was created no later than it was last updated, and last
    updated no later than the clock reading [t]. *)
Definition timestamps_ordered (t : string) (db : Database) : Prop :=
  forall i r, seo db !! i = Some r ->
    String.leb (createdAt r) (updatedAt r) = true
    /\ String.leb (updatedAt r) t = true.

(** Every row of the table is published. *)
Definition all_published (db : Database) : Prop :=
  forall i r, seo db !! i = Some r -> isPublished r = SInt 1.

(** ** Example data *)

(** A store file that opens but on which CREATE TABLE fails. *)
Definition failed_schema_step : init_env unit :=
  InitEnv (Ok tt) (Throw (EngineError "file is not a database")) (Ok tt).

(** A store file that cannot be opened. *)
Definition failed_open : init_env unit :=
  InitEnv (Throw (EngineError "unable to open database file")) (Ok tt) (Ok tt).

(** A first start on a fresh file: ADD COLUMN fails, the column exists. *)
Definition fresh_start : init_env unit :=
  InitEnv (Ok tt) (Ok tt) (Throw (EngineError "duplicate column name: content")).

Definition empty_database : Database :=
  {| seo := ∅; sqlite_sequence := 0; last_insert_rowid := 0 |}.

(** The body of the scenario of the specification. *)
Definition about_body : gmap string jsval :=
  <["pagePath" := JStr "/about"]>
    (<["pageTitle" := JStr "About"]>
       (<["metaTitle" := JStr "About Us"]>
          (<["metaDescription" := JStr "desc"]> ∅))).

Definition about_row : SeoRow :=
  {| pagePath := "/about"; pageTitle := "About"; metaTitle := "About Us";
     metaDescription := "desc"; content := None; keywords := None;
     canonicalUrl := None; ogTitle := None; ogDescription := None;
     ogImage := None; twitterTitle := None; twitterDescription := None;
     twitterImage := None; robots := None; seoScore := SInt 0;
     isPublished := SInt 1; createdAt := "2024-01-01 00:00:00";
     updatedAt := "2024-01-01 00:00:00" |}.

(** The store after the scenario's create. *)
Definition about_database : Database :=
  {| seo := {[ 1 := about_row ]}; sqlite_sequence := 1; last_insert_rowid := 1 |}.

(** A store whose only record, written by another client of the file, is
    not published. *)
Definition draft_row : SeoRow :=
  {| pagePath := "/draft"; pageTitle := "Draft"; metaTitle := "Draft";
     metaDescription := "desc"; content := None; keywords := None;
     canonicalUrl := None; ogTitle := None; ogDescription := None;
     ogImage := None; twitterTitle := None; twitterDescription := None;
     twitterImage := None; robots := Some "index, follow"; seoScore := SInt 0;
     isPublished := SInt 0; createdAt := "2024-01-01 00:00:00";
     updatedAt := "2024-01-01 00:00:00" |}.

Definition draft_database : Database :=
  {| seo := {[ 1 := draft_row ]}; sqlite_sequence := 1; last_insert_rowid := 0 |}.


Definition emptied_database : Database :=
  {| seo := ∅; sqlite_sequence := 1; last_insert_rowid := 1 |}.

(** A second page, with keywords, a robots directive and a score, and the
    store that holds both pages. *)
Definition contact_row : SeoRow :=
  {| pagePath := "/contact"; pageTitle := "Contact"; metaTitle := "Contact Us";
     metaDescription := "desc"; content := None;
     keywords := Some "contact, email"; canonicalUrl := None; ogTitle := None;
     ogDescription := None; ogImage := None; twitterTitle := None;
     twitterDescription := None; twitterImage := None;
     robots := Some "index, follow"; seoScore := SInt 90;
     isPublished := SInt 1; createdAt := "2024-01-02 00:00:00";
     updatedAt := "2024-01-02 00:00:00" |}.

Definition two_pages_database : Database :=
  {| seo := <[2 := contact_row]> {[ 1 := about_row ]};
     sqlite_sequence := 2; last_insert_rowid := 2 |}.

(** A body with the four required fields of the second page and nothing
    else; the scenario's body under a new path; and without its title. *)
Definition contact_body : gmap string jsval :=
  <["pagePath" := JStr "/contact"]>
    (<["pageTitle" := JStr "Contact"]>
       (<["metaTitle" := JStr "Contact Us"]>
          (<["metaDescription" := JStr "desc"]> ∅))).

Definition rename_body : gmap string jsval :=
  <["pagePath" := JStr "/about-us"]> about_body.

Definition untitled_body : gmap string jsval :=
  delete "pageTitle" about_body.

(** The same body asking for the record to be unpublished. *)
Definition unpublish_body : gmap string jsval :=
  <["isPublished" := JNum 0]> about_body.

(** A run that leaves a record behind: both pages are created, the first is
    moved to "/about-us", the second is deleted; the record that remains,
    and the store that holds it. *)
Definition busy_run : list (string * request) :=
  [("2024-01-01 00:00:00", PostSeo about_body);
   ("2024-01-02 00:00:00", PostSeo contact_body);
   ("2024-01-03 00:00:00", PutSeo "1" rename_body);
   ("2024-01-04 00:00:00", DeleteSeo "2")].

Definition renamed_row : SeoRow :=
  {| pagePath := "/about-us"; pageTitle := "About"; metaTitle := "About Us";
     metaDescription := "desc"; content := None; keywords := None;
     canonicalUrl := None; ogTitle := None; ogDescription := None;
     ogImage := None; twitterTitle := None; twitterDescription := None;
     twitterImage := None; robots := None; seoScore := SInt 0;
     isPublished := SInt 1; createdAt := "2024-01-01 00:00:00";
     updatedAt := "2024-01-03 00:00:00" |}.

Definition renamed_database : Database :=
  {| seo := {[ 1 := renamed_row ]}; sqlite_sequence := 2;
     last_insert_rowid := 2 |}.


Definition scored_body : gmap string jsval :=
  <["seoScore" := JBool true]> about_body.

(** * Properties *)

(** ** The storage gateway *)

Section GatewayFacts.

Context {Handle : Type}.

Implicit Types (env : init_env Handle) (db : option Handle).

(** The three ways one call of [initializeDatabase] can go. *)
Lemma initializeDatabase_cases env db :
  initializeDatabase env db =
    match open_store env, create_table env with
    | Throw e, _ => (db, Throw e)
    | Ok h, Throw e => (Some h, Throw e)
    | Ok h, Ok _ => (Some h, Ok h)
    end.
Proof.
  destruct env as [o c a].
  destruct o, c, a; reflexivity.
Qed.

Lemma init_history_cons env envs db :
  init_history (env :: envs) db =
    ((init_history envs (initializeDatabase env db).1).1,
     (initializeDatabase env db).2
       :: (init_history envs (initializeDatabase env db).1).2).
Proof.
  simpl. destruct (initializeDatabase env db) as [db1 r]. simpl.
  destruct (init_history envs db1) as [db2 rs]. reflexivity.
Qed.

Lemma initializeDatabase_state env db :
  (initializeDatabase env db).1 = last_opened [env] db.
Proof.
  rewrite initializeDatabase_cases. unfold last_opened. simpl.
  destruct (open_store env), (create_table env); reflexivity.
Qed.

(** After any history the variable holds the handle opened last. *)
Lemma init_history_state envs db :
  (init_history envs db).1 = last_opened envs db.
Proof.
  revert db. induction envs as [|env envs IH]; intros db; [reflexivity|].
  rewrite init_history_cons. simpl. rewrite IH, initializeDatabase_state.
  reflexivity.
Qed.

Lemma init_history_length envs db :
  length (init_history envs db).2 = length envs.
Proof.
  revert db. induction envs as [|env envs IH]; intros db; [reflexivity|].
  rewrite init_history_cons. simpl. by rewrite IH.
Qed.

Lemma last_opened_none envs db :
  existsb opened envs = false -> last_opened envs db = db.
Proof.
  revert db. induction envs as [|env envs IH]; intros db; [reflexivity|].
  simpl. unfold opened at 1. intros Hex.
  apply orb_false_iff in Hex as [Hop Hrest].
  unfold last_opened in *. simpl.
  destruct (open_store env); [discriminate|]. by apply IH.
Qed.

Lemma last_opened_some envs db :
  existsb opened envs = true -> is_Some (last_opened envs db).
Proof.
  revert db. induction envs as [|env envs IH]; intros db; [discriminate|].
  simpl. intros Hex. unfold last_opened in *. simpl.
  destruct (existsb opened envs) eqn:Hrest.
  - by apply IH.
  - rewrite orb_false_r in Hex. unfold opened in Hex.
    destruct (open_store env) as [h|]; [|discriminate].
    fold (last_opened envs (Some h)). rewrite last_opened_none by done. eauto.
Qed.

(** A call that returns leaves the handle it returns in the variable. *)
Lemma initializeDatabase_returns env db h :
  (initializeDatabase env db).2 = Ok h -> (initializeDatabase env db).1 = Some h.
Proof.
  rewrite initializeDatabase_cases.
  destruct (open_store env), (create_table env); simpl; congruence.
Qed.

Lemma init_history_last envs db h :
  last (init_history envs db).2 = Some (Ok h) ->
  (init_history envs db).1 = Some h.
Proof.
  revert db. induction envs as [|env envs IH]; intros db; [discriminate|].
  rewrite init_history_cons. simpl.
  destruct envs as [|env' envs].
  - simpl. intros [= Hr]. by apply initializeDatabase_returns.
  - pose proof (init_history_length (env' :: envs) (initializeDatabase env db).1) as Hlen.
    destruct (init_history (env' :: envs) (initializeDatabase env db).1).2
      as [|r rs] eqn:Hrs; [discriminate|].
    simpl. intros Hlast. apply IH. by rewrite Hrs.
Qed.

(** C9. During [initializeDatabase] the failure of the add-column step is
    the only one suppressed: whatever that step does, the call returns the
    handle as soon as the store opened and the table statement ran; a failure
    to open the store is thrown to the caller with the variable untouched,
    and so is a failure of the table statement. *)
Theorem initializeDatabase_failures
    (o : Result Handle) (c a : Result unit) (db : option Handle) :
  initializeDatabase (InitEnv o c a) db =
    match o, c with
    | Throw e, _ => (db, Throw e)
    | Ok h, Throw e => (Some h, Throw e)
    | Ok h, Ok _ => (Some h, Ok h)
    end
  /\ (forall h e,
        initializeDatabase (InitEnv (Ok h) (Ok tt) (Throw e)) db = (Some h, Ok h))
  /\ (forall e,
        initializeDatabase (InitEnv (Throw e) c a) db = (db, Throw e))
  /\ completed (initializeDatabase (InitEnv o c a) db).2
       = opened (InitEnv o c a) && created (InitEnv o c a).
Proof.
  split; [|split; [|split]].
  - apply initializeDatabase_cases.
  - intros h e. apply initializeDatabase_cases.
  - intros e. apply initializeDatabase_cases.
  - rewrite initializeDatabase_cases. unfold opened, created. simpl.
    destruct o, c; reflexivity.
Qed.

(** C8, as amended. Starting from the unset variable, after any calls of
    [initializeDatabase] the accessor throws the uninitialized error exactly
    when none of the calls opened the store; otherwise it returns, without
    error, the handle opened last, which after a call that completed is the
    handle that call returned. *)
Theorem getDatabase_guard (envs : list (init_env Handle)) :
  ((getDatabase (init_history envs None).1).2 = Throw NotInitialized
     <-> existsb opened envs = false)
  /\ (forall h,
        last_opened envs None = Some h ->
        getDatabase (init_history envs None).1 = (Some h, Ok h))
  /\ (forall h,
        last (init_history envs None).2 = Some (Ok h) ->
        getDatabase (init_history envs None).1 = (Some h, Ok h)).
Proof.
  split; [|split].
  - rewrite init_history_state. split.
    + intros Hget. destruct (existsb opened envs) eqn:Hex; [|done].
      destruct (last_opened_some envs None Hex) as [h Hh].
      rewrite Hh in Hget. discriminate.
    + intros Hex. by rewrite last_opened_none.
  - intros h Hh. by rewrite init_history_state, Hh.
  - intros h Hlast. by rewrite (init_history_last _ _ _ Hlast).
Qed.

End GatewayFacts.

(** C8, the claim as stated fails.  When the store opens and CREATE TABLE
    throws, no call of [initializeDatabase] has returned, and the accessor
    returns the handle all the same; when the store does not open, the call
    is over, and the accessor still throws the uninitialized error.  So
    neither "has returned" nor "is over" is what the guard tests. *)
Lemma getDatabase_after_failed_initialize :
  (forallb (fun r => negb (completed r))
           (init_history [failed_schema_step] None).2 = true
   /\ (getDatabase (init_history [failed_schema_step] None).1).2 = Ok tt)
  /\ (length (init_history [failed_open] None).2 = 1%nat
      /\ (getDatabase (init_history [failed_open] None).1).2
           = Throw NotInitialized).
Proof. split; split; reflexivity. Qed.

(** ** The order of ORDER BY createdAt DESC *)

Lemma ascii_compare_refl (a : ascii) : Ascii.compare a a = Eq.
Proof. unfold Ascii.compare. apply N.compare_refl. Qed.

Lemma ascii_compare_lt_trans (a b c : ascii) :
  Ascii.compare a b = Lt -> Ascii.compare b c = Lt -> Ascii.compare a c = Lt.
Proof.
  unfold Ascii.compare. rewrite !N.compare_lt_iff. apply N.lt_trans.
Qed.

Lemma string_compare_refl (s : string) : String.compare s s = Eq.
Proof.
  induction s as [|a s IH]; [reflexivity|].
  simpl. by rewrite ascii_compare_refl.
Qed.

Lemma string_compare_lt_trans (s t u : string) :
  String.compare s t = Lt -> String.compare t u = Lt -> String.compare s u = Lt.
Proof.
  revert t u. induction s as [|a s IH]; intros [|b t] [|c u]; simpl; try done.
  destruct (Ascii.compare a b) eqn:Hab; try done;
    destruct (Ascii.compare b c) eqn:Hbc; try done; intros Hst Htu.
  - apply Ascii.compare_eq_iff in Hab, Hbc. subst.
    rewrite ascii_compare_refl. eauto.
  - apply Ascii.compare_eq_iff in Hab. subst. by rewrite Hbc.
  - apply Ascii.compare_eq_iff in Hbc. subst. by rewrite Hab.
  - by rewrite (ascii_compare_lt_trans a b c).
Qed.

Lemma string_leb_trans (s t u : string) :
  String.leb s t = true -> String.leb t u = true -> String.leb s u = true.
Proof.
  unfold String.leb.
  destruct (String.compare s t) eqn:Hst; try done;
    destruct (String.compare t u) eqn:Htu; try done; intros _ _.
  - apply String.compare_eq_iff in Hst, Htu. subst.
    by rewrite string_compare_refl.
  - apply String.compare_eq_iff in Hst. subst. by rewrite Htu.
  - apply String.compare_eq_iff in Htu. subst. by rewrite Hst.
  - by rewrite (string_compare_lt_trans s t u).
Qed.

#[global] Instance created_desc_total : Total created_desc.
Proof.
  intros x y. unfold created_desc.
  destruct (String.leb_total (createdAt x.2) (createdAt y.2)); auto.
Qed.

#[global] Instance created_desc_trans : Transitive created_desc.
Proof.
  intros x y z Hxy Hyz. unfold created_desc in *.
  by apply (string_leb_trans _ (createdAt y.2)).
Qed.

(** ** The table and its statements *)

Lemma foldr_max_bound (l : list Z) (i : Z) : i ∈ l -> i <= foldr Z.max 0 l.
Proof.
  induction l as [|x l IH]; [by intros ?%elem_of_nil|].
  intros [->|Hin]%elem_of_cons; simpl; [lia|].
  specialize (IH Hin). lia.
Qed.

Lemma max_rowid_bound (m : gmap Z SeoRow) i r :
  m !! i = Some r -> i <= max_rowid m.
Proof.
  intros Hi. apply foldr_max_bound.
  apply list_elem_of_fmap. exists (i, r). split; [done|].
  by apply elem_of_map_to_list.
Qed.

Lemma next_rowid_above_sequence db : sqlite_sequence db < next_rowid db.
Proof. unfold next_rowid. lia. Qed.

Lemma next_rowid_fresh db : seo db !! next_rowid db = None.
Proof.
  destruct (seo db !! next_rowid db) as [r|] eqn:Hr; [|done].
  apply max_rowid_bound in Hr. unfold next_rowid in Hr. lia.
Qed.

Lemma path_taken_true m self p :
  path_taken m self p = true <->
  exists j r, m !! j = Some r /\ Some j <> self /\ pagePath r = p.
Proof.
  unfold path_taken. rewrite bool_decide_eq_true, map_Exists_lookup.
  naive_solver.
Qed.

Lemma path_taken_false m self p :
  path_taken m self p = false <->
  forall j r, m !! j = Some r -> Some j <> self -> pagePath r <> p.
Proof.
  rewrite <- not_true_iff_false, path_taken_true. split.
  - intros Hnone j r Hj Hself Hp. apply Hnone. by exists j, r.
  - intros Hall (j & r & Hj & Hself & Hp). by apply (Hall j r).
Qed.

Lemma select_published_None db p :
  select_published db p = None <->
  forall i r, seo db !! i = Some r -> pagePath r = p -> isPublished r <> SInt 1.
Proof.
  unfold select_published. split.
  - intros Hnone i r Hi Hp Hpub.
    pose proof (find_none _ _ Hnone (i, r)) as Hf. simpl in Hf.
    rewrite <- list_elem_of_In, elem_of_map_to_list in Hf.
    specialize (Hf Hi). unfold is_published in Hf.
    rewrite Hp, String.eqb_refl, bool_decide_true in Hf by done. discriminate.
  - intros Hall.
    destruct (find _ _) as [[i r]|] eqn:Hfind; [|done].
    apply find_some in Hfind as [Hin Hf]. simpl in Hf.
    rewrite <- list_elem_of_In, elem_of_map_to_list in Hin.
    apply andb_true_iff in Hf as [Hp Hpub].
    apply String.eqb_eq in Hp. apply bool_decide_eq_true in Hpub.
    by destruct (Hall i r Hin Hp).
Qed.

Lemma select_published_Some db p i r :
  select_published db p = Some (i, r) ->
  seo db !! i = Some r /\ pagePath r = p /\ isPublished r = SInt 1.
Proof.
  unfold select_published. intros Hfind.
  apply find_some in Hfind as [Hin Hf]. simpl in Hf.
  rewrite <- list_elem_of_In, elem_of_map_to_list in Hin.
  apply andb_true_iff in Hf as [Hp Hpub].
  apply String.eqb_eq in Hp. by apply bool_decide_eq_true in Hpub.
Qed.

(** ** The example stores *)

Lemma about_database_rows j r :
  seo about_database !! j = Some r -> j = 1 /\ r = about_row.
Proof.
  unfold about_database. cbn [seo].
  by intros [<- <-]%lookup_singleton_Some.
Qed.

Lemma two_pages_database_rows j r :
  seo two_pages_database !! j = Some r ->
  (j = 1 /\ r = about_row) \/ (j = 2 /\ r = contact_row).
Proof.
  unfold two_pages_database. cbn [seo].
  intros [[<- <-]|[_ [<- <-]%lookup_singleton_Some]]%lookup_insert_Some; auto.
Qed.

Lemma two_pages_database_unique : unique_paths (seo two_pages_database).
Proof.
  intros i j r s Hi Hj Hp.
  apply two_pages_database_rows in Hi as [[-> ->]|[-> ->]];
    apply two_pages_database_rows in Hj as [[-> ->]|[-> ->]]; done.
Qed.

Lemma two_pages_database_bounds : sequence_bounds two_pages_database.
Proof.
  intros i r Hi.
  apply two_pages_database_rows in Hi as [[-> ->]|[-> ->]]; cbn; lia.
Qed.

Lemma empty_database_rows j r : seo empty_database !! j = Some r -> False.
Proof. unfold empty_database. cbn [seo]. by rewrite lookup_empty. Qed.

(** ** The binder *)

Lemma double_of_int_exact (n : Z) : Z.abs n <= 2 ^ 53 -> double_of_int n = n.
Proof.
  intros Hn. unfold double_of_int. cbv zeta.
  destruct (Z.log2 (Z.abs n) - 52 <=? 0) eqn:Hk; [reflexivity|].
  apply Z.leb_gt in Hk.
  assert (Z.log2 (Z.abs n) = 53) as Hlog.
  { pose proof (Z.log2_le_mono (Z.abs n) (2 ^ 53) Hn) as Hle.
    rewrite Z.log2_pow2 in Hle by lia. lia. }
  assert (Z.abs n = 2 ^ 53) as Habs.
  { assert (0 < Z.abs n) as Hpos.
    { destruct (Z.abs n) eqn:Ha; try lia. simpl in Hlog. lia. }
    pose proof (Z.log2_spec (Z.abs n) Hpos) as [Hlow _].
    rewrite Hlog in Hlow. lia. }
  rewrite Hlog, Habs. change (Z.sgn n * 2 ^ 53 = n).
  rewrite <- Habs, Z.mul_comm. apply Z.abs_sgn.
Qed.

Lemma bind_value_scalar limit v bound :
  scalar v -> (length bound < limit)%nat ->
  bind_value limit v bound = Ok (bound ++ [sql_of_js v])%list.
Proof.
  intros Hv Hlen. unfold bind_value, sql_of_js.
  destruct v; try done; cbn; by rewrite decide_True.
Qed.

Lemma bind_arg_scalar limit v seen bound :
  scalar v -> (length bound < limit)%nat ->
  bind_arg limit v seen bound = Ok (seen, (bound ++ [sql_of_js v])%list).
Proof.
  intros Hv Hlen. pose proof (bind_value_scalar limit v bound Hv Hlen) as Hb.
  destruct v; try done; unfold bind_arg; by rewrite Hb.
Qed.

Lemma bind_args_scalars limit args seen bound :
  Forall scalar args ->
  (length bound + length args = limit)%nat ->
  bind_args limit args seen bound
    = Ok (bound ++ (sql_of_js <$> args))%list.
Proof.
  intros Hargs. revert bound.
  induction Hargs as [|v args Hv Hargs IH]; intros bound Hlen.
  - cbn [bind_args fmap list_fmap]. cbn [length] in Hlen.
    rewrite app_nil_r, decide_True by lia. reflexivity.
  - cbn [length] in Hlen. cbn [bind_args].
    rewrite bind_arg_scalar by (done || lia).
    rewrite IH by (rewrite length_app; cbn [length]; lia).
    by rewrite <- app_assoc.
Qed.

(** Scalars are bound one to a parameter, in their order. *)
Lemma bind_all_scalars limit args :
  Forall scalar args -> length args = limit ->
  bind_all limit args = Ok (sql_of_js <$> args).
Proof. intros Hargs Hlen. by apply (bind_args_scalars limit args false []). Qed.

Lemma bind_value_Ok limit v bound vs :
  bind_value limit v bound = Ok vs ->
  exists x, bind v = Some x /\ vs = (bound ++ [x])%list.
Proof.
  unfold bind_value. destruct (bind v) as [x|]; [|done].
  case_decide; [|done]. intros [= <-]. by exists x.
Qed.

Lemma bind_array_prefix limit items bound vs :
  bind_array limit items bound = Ok vs -> exists xs, vs = (bound ++ xs)%list.
Proof.
  revert bound. induction items as [|v items IH]; intros bound; cbn [bind_array].
  - intros [= <-]. exists []. by rewrite app_nil_r.
  - destruct (bind_value limit v bound) as [bound'|] eqn:Hv; [|done].
    apply bind_value_Ok in Hv as (x & _ & ->).
    intros (xs & ->)%IH. exists (x :: xs). by rewrite <- app_assoc.
Qed.

Lemma bind_arg_prefix limit v seen bound seen' vs :
  bind_arg limit v seen bound = Ok (seen', vs) ->
  exists xs, vs = (bound ++ xs)%list.
Proof.
  destruct v; cbn [bind_arg];
    try (destruct (bind_value limit _ bound) as [bound'|] eqn:Hv; [|done];
         apply bind_value_Ok in Hv as (x & _ & ->);
         intros [= <- <-]; by exists [x]).
  - destruct (bind_array limit items bound) as [bound'|] eqn:Hv; [|done].
    apply bind_array_prefix in Hv as (ys & ->). intros [= <- <-]. by exists ys.
  - destruct seen; [done|]. intros [= <- <-]. exists []. by rewrite app_nil_r.
Qed.

(** What is bound is never unbound. *)
Lemma bind_args_prefix limit args seen bound vs :
  bind_args limit args seen bound = Ok vs ->
  exists xs, vs = (bound ++ xs)%list.
Proof.
  revert seen bound.
  induction args as [|v args IH]; intros seen bound; cbn [bind_args].
  - case_decide; [|done]. intros [= <-]. exists []. by rewrite app_nil_r.
  - destruct (bind_arg limit v seen bound) as [[seen' bound']|] eqn:Hv; [|done].
    apply bind_arg_prefix in Hv as (ys & ->).
    intros (xs & ->)%IH. exists (ys ++ xs)%list. by rewrite <- app_assoc.
Qed.

(** A first argument the binder binds is the first value bound. *)
Lemma bind_all_head limit v args vs x :
  bind v = Some x -> bind_all limit (v :: args) = Ok vs ->
  exists vs', vs = x :: vs'.
Proof.
  intros Hv. unfold bind_all. cbn [bind_args].
  destruct (bind_arg limit v false []) as [[seen' bound']|] eqn:Hb; [|done].
  assert (exists ys, bound' = x :: ys) as [ys ->].
  { destruct v; try discriminate; cbn [bind_arg] in Hb;
      (destruct (bind_value limit _ []) as [b|] eqn:Hb'; [|done]);
      apply bind_value_Ok in Hb' as (y & Hy & ->);
      injection Hb as _ <-; exists []; simpl; congruence. }
  intros (xs & ->)%bind_args_prefix. by exists (ys ++ xs)%list.
Qed.

(** A string in the last place is the last value bound. *)
Lemma bind_args_last limit args s seen bound vs :
  bind_args limit (args ++ [JStr s]) seen bound = Ok vs ->
  last vs = Some (SText s).
Proof.
  revert seen bound.
  induction args as [|v args IH]; intros seen bound.
  - cbn [app bind_args bind_arg].
    destruct (bind_value limit (JStr s) bound) as [bound'|] eqn:Hv; [|done].
    apply bind_value_Ok in Hv as (x & [= <-] & ->).
    case_decide; [|done]. intros [= <-]. apply last_snoc.
  - rewrite <- app_comm_cons. cbn [bind_args].
    destruct (bind_arg limit v seen bound) as [[seen' bound']|]; [|done].
    apply IH.
Qed.

Lemma bindable_args b : bindable b -> Forall scalar (seo_args b).
Proof.
  intros [Htext Hscore]. unfold text_fields in Htext.
  repeat (apply Forall_cons in Htext as [? Htext]).
  unfold seo_args. repeat (apply Forall_cons; split; [done|]).
  apply Forall_cons. split; [|done].
  unfold js_or. destruct Hscore as [Hs| ->]; [|done].
  by destruct (truthy (prop b "seoScore")).
Qed.

Section StatementFacts.

Context `{SqliteCoercion}.

Lemma text_affinity_bind v : text_affinity (sql_of_js v) = column_text v.
Proof. by destruct v. Qed.

(** The row made from the values of a body: the NOT NULL columns decide. *)
Lemma new_row_body body published created updated :
  new_row (sql_of_js <$> seo_args body) published created updated =
    match column_text (prop body "pagePath"),
          column_text (prop body "pageTitle"),
          column_text (prop body "metaTitle"),
          column_text (prop body "metaDescription") with
    | Some p, Some t, Some mt, Some md =>
        Ok (row_of_body body p t mt md published created updated)
    | None, _, _, _ => Throw (NotNullViolation "seo.pagePath")
    | Some _, None, _, _ => Throw (NotNullViolation "seo.pageTitle")
    | Some _, Some _, None, _ => Throw (NotNullViolation "seo.metaTitle")
    | Some _, Some _, Some _, None => Throw (NotNullViolation "seo.metaDescription")
    end.
Proof.
  unfold seo_args, new_row, not_null, row_of_body, column_int.
  cbn [fmap list_fmap]. rewrite !text_affinity_bind.
  destruct (column_text (prop body "pagePath")); [|reflexivity].
  destruct (column_text (prop body "pageTitle")); [|reflexivity].
  destruct (column_text (prop body "metaTitle")); [|reflexivity].
  destruct (column_text (prop body "metaDescription")); reflexivity.
Qed.

Ltac required :=
  repeat match goal with
  | |- context [match text_affinity ?v with Some _ => _ | None => _ end] =>
      destruct (text_affinity v); cbn [mbind Result_bind]; [|discriminate]
  end.

Ltac fifteen vs :=
  do 15 (destruct vs as [|? vs]; [discriminate|]);
  destruct vs; [|discriminate].

(** Whatever the values, the row made keeps the three columns given. *)
Lemma new_row_keeps vs published created updated row :
  new_row vs published created updated = Ok row ->
  isPublished row = published /\ createdAt row = created
  /\ updatedAt row = updated.
Proof.
  unfold new_row. fifteen vs. unfold not_null. required.
  unfold mret, Result_ret. by intros [= <-].
Qed.

(** The first value is what [pagePath] stores. *)
Lemma new_row_path x vs published created updated row :
  new_row (x :: vs) published created updated = Ok row ->
  text_affinity x = Some (pagePath row).
Proof.
  unfold new_row. do 14 (destruct vs as [|? vs]; [discriminate|]).
  destruct vs; [|discriminate]. unfold not_null.
  destruct (text_affinity x) as [p|]; cbn [mbind Result_bind]; [|discriminate].
  required. unfold mret, Result_ret. by intros [= <-].
Qed.

Lemma new_row_length vs published created updated row :
  new_row vs published created updated = Ok row -> length vs = 15%nat.
Proof. unfold new_row. fifteen vs. done. Qed.

End StatementFacts.

Section HandlerFacts.

Context `{SqliteCoercion}.

(** The [id] of the route names no row of the table. *)
Lemma match_none db id :
  (forall i, int_of_text id = Some i -> seo db !! i = None) ->
  (int_of_text id ≫= fun i => (fun r => (i, r)) <$> seo db !! i) = None.
Proof.
  intros Hnone. destruct (int_of_text id) as [i|]; [|done].
  simpl. by rewrite (Hnone i).
Qed.

Lemma match_some db id i r :
  int_of_text id = Some i -> seo db !! i = Some r ->
  (int_of_text id ≫= fun i => (fun r => (i, r)) <$> seo db !! i) = Some (i, r).
Proof. intros -> Hr. simpl. by rewrite Hr. Qed.

Lemma match_inv db id i r :
  (int_of_text id ≫= fun i => (fun r => (i, r)) <$> seo db !! i) = Some (i, r) ->
  int_of_text id = Some i /\ seo db !! i = Some r.
Proof.
  destruct (int_of_text id) as [j|]; [|done]. simpl.
  destruct (seo db !! j) as [s|] eqn:Hj; [|done]. simpl.
  intros [= -> ->]. done.
Qed.

Lemma match_none_inv db id :
  (int_of_text id ≫= fun i => (fun r => (i, r)) <$> seo db !! i) = None ->
  forall i, int_of_text id = Some i -> seo db !! i = None.
Proof.
  intros Hmatch i Hid. destruct (seo db !! i) as [r|] eqn:Hr; [|done].
  by rewrite (match_some db id i r Hid Hr) in Hmatch.
Qed.

Lemma select_by_id_Some db v i r :
  rowid_of v = Some i -> seo db !! i = Some r -> select_by_id db v = Some (i, r).
Proof. unfold select_by_id. intros -> Hr. simpl. by rewrite Hr. Qed.

(** INSERT on the fields of a body the binder binds one value each. *)
Lemma run_insert_cases db b now :
  Forall scalar (seo_args b) ->
  run_insert db (seo_args b) now =
    if rowid_limit <=? Z.max (max_rowid (seo db)) (sqlite_sequence db)
    then Throw (EngineError "database or disk is full")
    else
      match new_row (sql_of_js <$> seo_args b) (SInt 1) now now with
      | Ok row =>
          if path_taken (seo db) None (pagePath row)
          then Throw (UniqueViolation "seo.pagePath")
          else Ok ({| seo := <[next_rowid db := row]> (seo db);
                      sqlite_sequence := next_rowid db;
                      last_insert_rowid := next_rowid db |},
                   {| changes := 1;
                      lastInsertRowid := double_of_int (next_rowid db) |})
      | Throw e => Throw e
      end.
Proof.
  intros Hb. unfold run_insert. rewrite bind_all_scalars by done.
  cbn [mbind Result_bind]. destruct (_ <=? _); [reflexivity|].
  destruct (new_row _ _ _ _); reflexivity.
Qed.

(** INSERT, when it returns, on any arguments. *)
Lemma run_insert_Ok db args now db' result :
  run_insert db args now = Ok (db', result) ->
  exists vs row,
    bind_all 15 args = Ok vs
    /\ next_rowid db <= rowid_limit
    /\ new_row vs (SInt 1) now now = Ok row
    /\ path_taken (seo db) None (pagePath row) = false
    /\ db' = {| seo := <[next_rowid db := row]> (seo db);
                sqlite_sequence := next_rowid db;
                last_insert_rowid := next_rowid db |}
    /\ result = {| changes := 1;
                   lastInsertRowid := double_of_int (next_rowid db) |}.
Proof.
  unfold run_insert.
  destruct (bind_all 15 args) as [vs|]; cbn [mbind Result_bind]; [|done].
  destruct (_ <=? _) eqn:Hfull; [done|]. apply Z.leb_gt in Hfull.
  destruct (new_row vs (SInt 1) now now) as [row|] eqn:Hrow;
    cbn [mbind Result_bind]; [|done].
  destruct (path_taken _ _ _) eqn:Htaken; [done|]. intros [= <- <-].
  exists vs, row. split; [done|]. split; [unfold next_rowid; lia|].
  by repeat split.
Qed.

(** UPDATE on the fields of a body the binder binds one value each. *)
Lemma run_update_cases db b id now :
  Forall scalar (seo_args b) ->
  run_update db (seo_args b ++ [JStr id]) now =
    match int_of_text id ≫= fun i => (fun r => (i, r)) <$> seo db !! i with
    | None =>
        Ok (db, {| changes := 0;
                   lastInsertRowid := double_of_int (last_insert_rowid db) |})
    | Some (i, old) =>
        match new_row (sql_of_js <$> seo_args b)
                      (isPublished old) (createdAt old) now with
        | Ok row =>
            if path_taken (seo db) (Some i) (pagePath row)
            then Throw (UniqueViolation "seo.pagePath")
            else Ok ({| seo := <[i := row]> (seo db);
                        sqlite_sequence := sqlite_sequence db;
                        last_insert_rowid := last_insert_rowid db |},
                     {| changes := 1;
                        lastInsertRowid :=
                          double_of_int (last_insert_rowid db) |})
        | Throw e => Throw e
        end
    end.
Proof.
  intros Hb. unfold run_update.
  rewrite bind_all_scalars
    by (try (apply Forall_app; split; [done|by repeat constructor]); done).
  unfold seo_args. cbn [fmap list_fmap app mbind Result_bind].
  change (sql_of_js (JStr id)) with (SText id). cbn [rowid_of].
  destruct (int_of_text id ≫= _) as [[i old]|]; [|reflexivity].
  destruct (new_row _ _ _ _); reflexivity.
Qed.

(** UPDATE, when it returns, on any fifteen arguments before the [id]. *)
Lemma run_update_Ok db args id now db' result :
  run_update db (args ++ [JStr id]) now = Ok (db', result) ->
  (db' = db /\ changes result = 0
   /\ forall i, int_of_text id = Some i -> seo db !! i = None)
  \/ exists i old vs row,
       int_of_text id = Some i
       /\ seo db !! i = Some old
       /\ bind_all 16 (args ++ [JStr id]) = Ok (vs ++ [SText id])%list
       /\ new_row vs (isPublished old) (createdAt old) now = Ok row
       /\ path_taken (seo db) (Some i) (pagePath row) = false
       /\ db' = {| seo := <[i := row]> (seo db);
                   sqlite_sequence := sqlite_sequence db;
                   last_insert_rowid := last_insert_rowid db |}
       /\ changes result = 1.
Proof.
  unfold run_update.
  destruct (bind_all 16 (args ++ [JStr id])) as [vs|] eqn:Hbind;
    cbn [mbind Result_bind]; [|done].
  pose proof (bind_args_last _ _ _ _ _ _ Hbind) as Hlast.
  do 16 (destruct vs as [|? vs]; [discriminate|]).
  destruct vs; [|discriminate].
  cbn in Hlast. injection Hlast as ->. cbn [rowid_of].
  destruct (int_of_text id ≫= _) as [[i old]|] eqn:Hmatch.
  - apply match_inv in Hmatch as [Hid Hold].
    destruct (new_row _ _ _ _) as [row|] eqn:Hrow; cbn [mbind Result_bind];
      [|done].
    destruct (path_taken _ _ _) eqn:Htaken; [done|]. intros [= <- <-].
    right. eexists i, old, _, row.
    split; [done|]. split; [done|].
    refine (conj _ (conj Hrow _)); [reflexivity|by repeat split].
  - intros [= <- <-]. left. split; [done|]. split; [done|].
    by apply match_none_inv.
Qed.

Lemma run_delete_cases db id :
  run_delete db [JStr id] =
    match int_of_text id ≫= fun i => (fun r => (i, r)) <$> seo db !! i with
    | None =>
        Ok (db, {| changes := 0;
                   lastInsertRowid := double_of_int (last_insert_rowid db) |})
    | Some (i, _) =>
        Ok ({| seo := delete i (seo db);
               sqlite_sequence := sqlite_sequence db;
               last_insert_rowid := last_insert_rowid db |},
            {| changes := 1;
               lastInsertRowid := double_of_int (last_insert_rowid db) |})
    end.
Proof. reflexivity. Qed.

Lemma post_seo_unfold body now db :
  post_seo body now (Some db) =
    match run_insert db (seo_args body) now with
    | Ok (db', result) =>
        (respond 201
           (JsonObj ([("success", JsonBool true);
                      ("message", JsonStr "SEO data created successfully")]
                     ++ optional_field "seoData"
                          (row_json <$>
                             select_by_id db' (SInt (lastInsertRowid result))))),
         Some db')
    | Throw e => (respond 500 (failure e), Some db)
    end.
Proof.
  unfold post_seo, try_catch. cbn [getDatabase snd mbind Result_bind].
  fold (seo_args body).
  destruct (run_insert db (seo_args body) now) as [[db' result]|e];
    cbn [mbind Result_bind mret Result_ret]; reflexivity.
Qed.

Lemma put_seo_unfold id body now db :
  put_seo id body now (Some db) =
    match run_update db (seo_args body ++ [JStr id]) now with
    | Ok (db', result) =>
        if changes result =? 0
        then (respond 404 not_found, Some db')
        else
          (respond 200
             (JsonObj ([("success", JsonBool true);
                        ("message", JsonStr "SEO data updated successfully")]
                       ++ optional_field "seoData"
                            (row_json <$> select_by_id db' (SText id)))),
           Some db')
    | Throw e => (respond 500 (failure e), Some db)
    end.
Proof.
  unfold put_seo, try_catch. cbn [getDatabase snd mbind Result_bind].
  change [prop body "pagePath"; prop body "pageTitle"; prop body "metaTitle";
          prop body "metaDescription"; prop body "content";
          prop body "keywords"; prop body "canonicalUrl"; prop body "ogTitle";
          prop body "ogDescription"; prop body "ogImage";
          prop body "twitterTitle"; prop body "twitterDescription";
          prop body "twitterImage"; prop body "robots";
          js_or (prop body "seoScore") (JNum 0); JStr id]
    with (seo_args body ++ [JStr id])%list.
  destruct (run_update db (seo_args body ++ [JStr id]) now)
    as [[db' result]|e]; [|reflexivity].
  cbn [mbind Result_bind]. by destruct (changes result =? 0).
Qed.

Lemma delete_seo_unfold id db :
  delete_seo id (Some db) =
    match run_delete db [JStr id] with
    | Ok (db', result) =>
        if changes result =? 0
        then (respond 404 not_found, Some db')
        else
          (respond 200
             (JsonObj [("success", JsonBool true);
                       ("message", JsonStr "SEO data deleted successfully")]),
           Some db')
    | Throw e => (respond 500 (failure e), Some db)
    end.
Proof.
  unfold delete_seo, try_catch. cbn [getDatabase snd mbind Result_bind].
  destruct (run_delete db [JStr id]) as [[db' result]|e]; [|reflexivity].
  cbn [mbind Result_bind]. by destruct (changes result =? 0).
Qed.

(** On an opened store the router answers in one of the ways of [answer]. *)
Lemma serve_answer now req db :
  exists res db',
    serve now req (Some db) = (res, Some db') /\ answer now db req res db'.
Proof.
  destruct req as [|p|b|id b|id]; cbn [serve].
  - eexists _, db. split; [reflexivity|constructor].
  - unfold get_seo_page, try_catch. cbn [getDatabase snd mbind Result_bind].
    destruct (select_published db p) as [row|] eqn:Hsel;
      eexists _, db; (split; [reflexivity|by constructor]).
  - rewrite post_seo_unfold.
    destruct (run_insert db (seo_args b) now) as [[db' result]|e] eqn:Hrun;
      [|eexists _, db; split; [reflexivity|by constructor]].
    apply run_insert_Ok in Hrun
      as (vs & row & _ & _ & Hrow & Htaken & -> & ->).
    apply new_row_keeps in Hrow as (Hp & Hc & Hu).
    eexists _, _. split; [reflexivity|by constructor].
  - rewrite put_seo_unfold.
    destruct (run_update db (seo_args b ++ [JStr id]) now)
      as [[db' result]|e] eqn:Hrun;
      [|eexists _, db; split; [reflexivity|by constructor]].
    apply run_update_Ok in Hrun
      as [(-> & -> & _)|(i & old & vs & row & _ & Hold & _ & Hrow & Htaken
                          & -> & ->)].
    + change (0 =? 0) with true. cbv iota.
      eexists _, db. split; [reflexivity|constructor].
    + change (1 =? 0) with false. cbv iota.
      apply new_row_keeps in Hrow as (Hp & Hc & Hu).
      eexists _, _. split; [reflexivity|by econstructor].
  - rewrite delete_seo_unfold, run_delete_cases.
    destruct (int_of_text id ≫= _) as [[i old]|] eqn:Hmatch.
    + apply match_inv in Hmatch as [Hid Hold].
      eexists _, _. split; [reflexivity|by econstructor].
    + eexists _, db. split; [reflexivity|constructor].
Qed.

Lemma answer_step now db req res db' :
  answer now db req res db' -> store_step db db'.
Proof. destruct 1; try constructor; try done. by econstructor. Qed.

(** Every request moves an initialised server by one step of the store. *)
Lemma serve_step now req db :
  exists db', (serve now req (Some db)).2 = Some db' /\ store_step db db'.
Proof.
  destruct (serve_answer now req db) as (res & db' & -> & Hanswer).
  exists db'. split; [reflexivity|]. by apply (answer_step now db req res).
Qed.

End HandlerFacts.

(** ** GET /api/v1/seo/page/:pagePath *)

Lemma get_seo_page_missing db p :
  (forall i r, seo db !! i = Some r -> pagePath r = p -> isPublished r <> SInt 1) ->
  get_seo_page p (Some db) =
    (respond 200 (JsonObj [("success", JsonBool true); ("seoData", fallback p)]),
     Some db).
Proof.
  intros Hnone. apply select_published_None in Hnone.
  unfold get_seo_page, try_catch. cbn [getDatabase snd mbind Result_bind].
  by rewrite Hnone.
Qed.

Lemma get_seo_page_status p g :
  status (get_seo_page p g).1 = 200 \/ status (get_seo_page p g).1 = 500.
Proof.
  destruct g as [db|]; [|by right].
  unfold get_seo_page, try_catch. cbn [getDatabase snd mbind Result_bind].
  destruct (select_published db p); by left.
Qed.

Lemma get_seo_page_state p g : (get_seo_page p g).2 = g.
Proof.
  destruct g as [db|]; [|done].
  unfold get_seo_page, try_catch. cbn [getDatabase snd mbind Result_bind].
  by destruct (select_published db p).
Qed.

(** C1. A get-by-path request for a path that no stored record with
    [isPublished = 1] carries is answered with status 200, never 404, with
    [success: true] and a fallback record whose [pagePath] is the requested
    path and whose [isPublished] is [true]. *)
Theorem get_seo_page_fallback (db : Database) (p : string) :
  (forall i r, seo db !! i = Some r -> pagePath r = p -> isPublished r <> SInt 1) ->
  let res := (get_seo_page p (Some db)).1 in
  status res = 200
  /\ status res <> 404
  /\ field "success" (body res) = Some (JsonBool true)
  /\ exists record,
       field "seoData" (body res) = Some record
       /\ field "pagePath" record = Some (JsonStr p)
       /\ field "isPublished" record = Some (JsonBool true).
Proof.
  intros Hnone res. subst res. rewrite (get_seo_page_missing db p Hnone).
  cbn [fst status body].
  split; [reflexivity|]. split; [discriminate|]. split; [reflexivity|].
  exists (fallback p). split; [reflexivity|]. split; reflexivity.
Qed.

(** C1 at a store whose only record carries the path but is not published. *)
Lemma get_seo_page_fallback_witness :
  let res := (get_seo_page "/draft" (Some draft_database)).1 in
  status res = 200
  /\ status res <> 404
  /\ field "success" (body res) = Some (JsonBool true)
  /\ exists record,
       field "seoData" (body res) = Some record
       /\ field "pagePath" record = Some (JsonStr "/draft")
       /\ field "isPublished" record = Some (JsonBool true).
Proof.
  apply (get_seo_page_fallback draft_database "/draft").
  intros i r Hi _. unfold draft_database in Hi. cbn [seo] in Hi.
  apply lookup_singleton_Some in Hi as [_ <-]. discriminate.
Defined.

(** C10. Get-by-path leaves the gateway state, hence the store, exactly as
    it was, whatever it answers; and when no published record matches, the
    record it sends is [fallback p], a function of the requested path alone,
    with [metaDescription] 'Digital Agency Services', [seoScore] 85 and
    [robots] 'index, follow'; the same for any two stores. *)
Theorem get_seo_page_read_only (g : option Database) (p : string) :
  (get_seo_page p g).2 = g
  /\ (forall db,
        (forall i r, seo db !! i = Some r -> pagePath r = p ->
                     isPublished r <> SInt 1) ->
        get_seo_page p (Some db) =
          (respond 200 (JsonObj [("success", JsonBool true);
                                 ("seoData", fallback p)]),
           Some db))
  /\ (forall db1 db2,
        select_published db1 p = None -> select_published db2 p = None ->
        (get_seo_page p (Some db1)).1 = (get_seo_page p (Some db2)).1)
  /\ field "pagePath" (fallback p) = Some (JsonStr p)
  /\ field "metaDescription" (fallback p) = Some (JsonStr "Digital Agency Services")
  /\ field "seoScore" (fallback p) = Some (JsonNum 85)
  /\ field "robots" (fallback p) = Some (JsonStr "index, follow").
Proof.
  split; [apply get_seo_page_state|].
  split; [intros db; apply get_seo_page_missing|].
  split; [|by repeat split].
  intros db1 db2 H1 H2.
  rewrite select_published_None in H1, H2.
  by rewrite !get_seo_page_missing.
Qed.

(** ** The records of the responses *)

(** The serialised row shows the row. *)
Lemma row_json_presents i r : presents (row_json (i, r)) i r.
Proof. repeat split. Qed.

Lemma presents_id record i r :
  presents record i r -> Z.abs i <= 2 ^ 53 ->
  field "id" record = Some (JsonNum i).
Proof. intros [Hid _] Hi. by rewrite Hid, double_of_int_exact. Qed.

Section MutationFacts.

Context `{SqliteCoercion}.

Lemma column_text_stores v : stores_text v (column_text v).
Proof.
  unfold stores_text, missing.
  split; [by intros [->| ->]|]. split; [by intros s ->|].
  split; [by intros n ->|by intros q ->].
Qed.


Lemma column_int_stores v :
  stores_score v (column_int (js_or v (JNum 0))).
Proof.
  unfold stores_score. split.
  - by intros [->|[->|[->|[->| ->]]]].
  - intros n ->. unfold js_or, truthy.
    destruct (n =? 0) eqn:Hn; [|done]. by apply Z.eqb_eq in Hn as ->.
Qed.

(** ** DELETE /api/v1/seo/:id *)

(** C5. A delete request whose [id] names a stored record removes exactly
    that record, every other row and the rest of the state staying as they
    were, and answers 200; a delete request whose [id] names no stored record
    answers 404 and leaves the store unchanged. *)
Theorem delete_seo_effect (db : Database) (id : string) :
  (forall i r,
     int_of_text id = Some i -> seo db !! i = Some r ->
     delete_seo id (Some db) =
       (respond 200 (JsonObj [("success", JsonBool true);
                              ("message", JsonStr "SEO data deleted successfully")]),
        Some {| seo := delete i (seo db);
                sqlite_sequence := sqlite_sequence db;
                last_insert_rowid := last_insert_rowid db |})
     /\ delete i (seo db) !! i = None
     /\ (forall j, j <> i -> delete i (seo db) !! j = seo db !! j)
     /\ size (seo db) = S (size (delete i (seo db))))
  /\ ((forall i, int_of_text id = Some i -> seo db !! i = None) ->
      delete_seo id (Some db) = (respond 404 not_found, Some db)).
Proof.
  split.
  - intros i r Hid Hr.
    rewrite delete_seo_unfold, run_delete_cases, (match_some db id i r Hid Hr).
    split; [reflexivity|]. split; [apply lookup_delete_eq|].
    split; [intros j Hj; by apply lookup_delete_ne|].
    rewrite <- (insert_delete_id (seo db) i r Hr) at 1.
    rewrite map_size_insert_None by apply lookup_delete_eq. reflexivity.
  - intros Hnone.
    by rewrite delete_seo_unfold, run_delete_cases, (match_none db id Hnone).
Qed.

(** ** PUT /api/v1/seo/:id *)

(** An update the store accepts: the answer and the store it leaves. *)
Lemma put_seo_accepts db id b now i old p t mt md :
  int_of_text id = Some i ->
  seo db !! i = Some old ->
  Forall scalar (seo_args b) ->
  column_text (prop b "pagePath") = Some p ->
  column_text (prop b "pageTitle") = Some t ->
  column_text (prop b "metaTitle") = Some mt ->
  column_text (prop b "metaDescription") = Some md ->
  (forall j r, seo db !! j = Some r -> j <> i -> pagePath r <> p) ->
  put_seo id b now (Some db) =
    (respond 200
       (JsonObj [("success", JsonBool true);
                 ("message", JsonStr "SEO data updated successfully");
                 ("seoData",
                  row_json (i, row_of_body b p t mt md (isPublished old)
                                           (createdAt old) now))]),
     Some {| seo := <[i := row_of_body b p t mt md (isPublished old)
                                       (createdAt old) now]> (seo db);
             sqlite_sequence := sqlite_sequence db;
             last_insert_rowid := last_insert_rowid db |}).
Proof.
  intros Hid Hold Hb Hp Ht Hmt Hmd Hfree.
  rewrite put_seo_unfold, run_update_cases, (match_some db id i old Hid Hold)
    by done.
  rewrite new_row_body, Hp, Ht, Hmt, Hmd.
  assert (path_taken (seo db) (Some i)
            (pagePath (row_of_body b p t mt md (isPublished old)
                                   (createdAt old) now)) = false) as ->.
  { apply path_taken_false. intros j r Hj Hne. apply (Hfree j r Hj). congruence. }
  cbn [changes]. change (1 =? 0) with false. cbv iota.
  rewrite (select_by_id_Some _ (SText id) i
             (row_of_body b p t mt md (isPublished old) (createdAt old) now) Hid)
    by (cbn [seo]; apply lookup_insert_eq).
  reflexivity.
Qed.

(** An update whose [id] names no record, whatever its body. *)
Lemma put_seo_unmatched db id b now :
  (forall i, int_of_text id = Some i -> seo db !! i = None) ->
  put_seo id b now (Some db) = (respond 404 not_found, Some db)
  \/ exists e, put_seo id b now (Some db) = (respond 500 (failure e), Some db).
Proof.
  intros Hnone. rewrite put_seo_unfold.
  destruct (run_update db (seo_args b ++ [JStr id]) now)
    as [[db' result]|e] eqn:Hrun; [|right; by exists e].
  apply run_update_Ok in Hrun
    as [(-> & -> & _)|(i & old & _ & _ & Hid & Hold & _)]; [by left|].
  by rewrite (Hnone i Hid) in Hold.
Qed.

(** C4, as amended. An update request whose [id] names no stored record
    leaves the store as it was and answers with [success: false]: 404 when
    the binder binds the fields of the body one value each (each absent,
    [null], a number or a string), and 404 or else 500 for any other body. *)
Theorem put_seo_missing
    (db : Database) (id : string) (b : gmap string jsval) (now : string) :
  (forall i, int_of_text id = Some i -> seo db !! i = None) ->
  (put_seo id b now (Some db)).2 = Some db
  /\ (status (put_seo id b now (Some db)).1 = 404
      \/ status (put_seo id b now (Some db)).1 = 500)
  /\ field "success" (body (put_seo id b now (Some db)).1)
       = Some (JsonBool false)
  /\ (bindable b ->
      put_seo id b now (Some db) = (respond 404 not_found, Some db)
      /\ field "error" (body (put_seo id b now (Some db)).1)
           = Some (JsonStr "SEO data not found")).
Proof.
  intros Hnone.
  assert (bindable b ->
          put_seo id b now (Some db) = (respond 404 not_found, Some db))
    as Hbound.
  { intros Hb%bindable_args.
    by rewrite put_seo_unfold, run_update_cases, (match_none db id Hnone). }
  split; [|split; [|split]].
  - by destruct (put_seo_unmatched db id b now Hnone) as [->|[e ->]].
  - destruct (put_seo_unmatched db id b now Hnone) as [->|[e ->]]; auto.
  - by destruct (put_seo_unmatched db id b now Hnone) as [->|[e ->]].
  - intros Hb. by rewrite (Hbound Hb).
Qed.


End MutationFacts.
(** The example bodies are bodies the binder binds field by field. *)
Ltac bindable_example :=
  split; [unfold text_fields; repeat (constructor; [exact I|]); constructor
         |left; exact I].

Lemma about_body_bindable : bindable about_body.
Proof. bindable_example. Qed.

Lemma contact_body_bindable : bindable contact_body.
Proof. bindable_example. Qed.

Lemma rename_body_bindable : bindable rename_body.
Proof. bindable_example. Qed.

Lemma untitled_body_bindable : bindable untitled_body.
Proof. bindable_example. Qed.


(** C4 as amended, at the scenario's store, for an [id] it does not hold. *)
Lemma put_seo_missing_witness :
  @put_seo decimal_coercion "7" about_body "2024-01-02 00:00:00"
           (Some about_database)
    = (respond 404 not_found, Some about_database)
  /\ field "error"
       (body (@put_seo decimal_coercion "7" about_body "2024-01-02 00:00:00"
                       (Some about_database)).1)
     = Some (JsonStr "SEO data not found").
Proof.
  destruct (@put_seo_missing decimal_coercion about_database "7" about_body
              "2024-01-02 00:00:00") as (_ & _ & _ & Hbound).
  - intros i [= <-]. reflexivity.
  - apply Hbound, about_body_bindable.
Defined.

(** C4, the claim as stated fails: an update for the [id] 7, which the
    scenario's store does not hold, whose body carries [seoScore: true], is
    refused by the binder before the statement runs and answers 500, not
    404. *)
Lemma put_seo_missing_boolean_score :
  @int_of_text decimal_coercion "7" = Some 7
  /\ seo about_database !! 7 = None
  /\ prop scored_body "seoScore" = JBool true
  /\ @put_seo decimal_coercion "7" scored_body "2024-01-02 00:00:00"
              (Some about_database)
     = (respond 500
          (JsonObj [("success", JsonBool false);
                    ("error",
                     JsonStr "SQLite3 can only bind numbers, strings, bigints, buffers, and null")]),
        Some about_database).
Proof. split; [|split; [|split]]; vm_compute; reflexivity. Qed.



(** ** What the routes preserve *)

Section InvariantFacts.

Context `{SqliteCoercion}.

Lemma store_step_sequence db db' :
  store_step db db' ->
  sqlite_sequence db <= sqlite_sequence db'
  /\ (sequence_bounds db -> sequence_bounds db').
Proof.
  pose proof (next_rowid_above_sequence db) as Hnext.
  destruct 1 as [|row Hfree|i old row Hold _ _ Hfree|i];
    cbn [sqlite_sequence]; (split; [lia|]); try done;
    intros Hb j r; cbn [seo sqlite_sequence].
  - intros [[<- _]|[_ Hj]]%lookup_insert_Some; [lia|].
    specialize (Hb j r Hj). lia.
  - intros [[<- _]|[_ Hj]]%lookup_insert_Some; [by apply (Hb i old)|].
    by apply (Hb j r).
  - intros [_ Hj]%lookup_delete_Some. by apply (Hb j r).
Qed.

Lemma store_step_unique db db' :
  store_step db db' -> unique_paths (seo db) -> unique_paths (seo db').
Proof.
  destruct 1 as [|row Hfree|i old row Hold _ _ Hfree|i]; try done;
    intros Hu j k r s; cbn [seo].
  - rewrite path_taken_false in Hfree.
    intros [[<- <-]|[Hj Hr]]%lookup_insert_Some
           [[<- <-]|[Hk Hs]]%lookup_insert_Some Hp; try done.
    + by destruct (Hfree k s Hs).
    + by destruct (Hfree j r Hr).
    + by apply (Hu j k r s).
  - rewrite path_taken_false in Hfree.
    intros [[<- <-]|[Hj Hr]]%lookup_insert_Some
           [[<- <-]|[Hk Hs]]%lookup_insert_Some Hp; try done.
    + destruct (Hfree k s Hs); congruence.
    + destruct (Hfree j r Hr); congruence.
    + by apply (Hu j k r s).
  - intros [_ Hr]%lookup_delete_Some [_ Hs]%lookup_delete_Some.
    by apply (Hu j k r s).
Qed.

Lemma state_after_cons now req reqs g :
  state_after ((now, req) :: reqs) g = state_after reqs (serve now req g).2.
Proof. reflexivity. Qed.

(** A property every step of the store preserves holds after any run. *)
Lemma state_after_preserves (P : Database -> Prop) :
  (forall d d', store_step d d' -> P d -> P d') ->
  forall reqs db, P db ->
    exists db', state_after reqs (Some db) = Some db' /\ P db'.
Proof.
  intros Hstep reqs. induction reqs as [|[now req] reqs IH]; intros db HP.
  - by exists db.
  - rewrite state_after_cons.
    destruct (serve_step now req db) as (db1 & -> & Hs).
    apply IH. by apply (Hstep db db1).
Qed.


End InvariantFacts.

Lemma foldr_max_nonneg (l : list Z) : 0 <= foldr Z.max 0 l.
Proof. induction l as [|x l IH]; simpl; lia. Qed.

Lemma next_rowid_positive db : 0 < next_rowid db.
Proof.
  unfold next_rowid, max_rowid.
  pose proof (foldr_max_nonneg (map_to_list (seo db)).*1). lia.
Qed.

Section CreateFacts.

Context `{SqliteCoercion}.

(** ** POST /api/v1/seo *)

(** A create the store accepts: the answer and the store it leaves. *)
Lemma post_seo_accepts db b now p t mt md :
  Forall scalar (seo_args b) ->
  column_text (prop b "pagePath") = Some p ->
  column_text (prop b "pageTitle") = Some t ->
  column_text (prop b "metaTitle") = Some mt ->
  column_text (prop b "metaDescription") = Some md ->
  (forall j r, seo db !! j = Some r -> pagePath r <> p) ->
  next_rowid db <= 2 ^ 53 ->
  post_seo b now (Some db) =
    (respond 201
       (JsonObj [("success", JsonBool true);
                 ("message", JsonStr "SEO data created successfully");
                 ("seoData",
                  row_json (next_rowid db,
                            row_of_body b p t mt md (SInt 1) now now))]),
     Some {| seo := <[next_rowid db :=
                        row_of_body b p t mt md (SInt 1) now now]> (seo db);
             sqlite_sequence := next_rowid db;
             last_insert_rowid := next_rowid db |}).
Proof.
  intros Hb Hp Ht Hmt Hmd Hfree Hnext.
  pose proof (next_rowid_positive db) as Hpos.
  rewrite post_seo_unfold, run_insert_cases by done.
  assert ((rowid_limit <=? Z.max (max_rowid (seo db)) (sqlite_sequence db))
          = false) as ->.
  { apply Z.leb_gt. unfold next_rowid, rowid_limit in *. lia. }
  rewrite new_row_body, Hp, Ht, Hmt, Hmd.
  assert (path_taken (seo db) None
            (pagePath (row_of_body b p t mt md (SInt 1) now now)) = false)
    as ->.
  { apply path_taken_false. intros j r Hj _. by apply (Hfree j r). }
  cbn [lastInsertRowid]. rewrite double_of_int_exact by lia.
  rewrite (select_by_id_Some _ (SInt (next_rowid db)) (next_rowid db)
             (row_of_body b p t mt md (SInt 1) now now))
    by (try reflexivity; cbn [seo]; apply lookup_insert_eq).
  reflexivity.
Qed.

(** A create for a stored path is refused, whatever else the body holds. *)
Lemma post_seo_rejects db b now i r :
  seo db !! i = Some r ->
  column_text (prop b "pagePath") = Some (pagePath r) ->
  exists e, post_seo b now (Some db) = (respond 500 (failure e), Some db).
Proof.
  intros Hr Hp. rewrite post_seo_unfold.
  destruct (run_insert db (seo_args b) now) as [[db' result]|e] eqn:Hrun;
    [|by exists e].
  apply run_insert_Ok in Hrun as (vs & row & Hbind & _ & Hrow & Htaken & _).
  unfold column_text in Hp.
  destruct (bind (prop b "pagePath")) as [x|] eqn:Hx; [|done].
  cbn [mbind option_bind] in Hp.
  unfold seo_args in Hbind.
  apply (bind_all_head _ _ _ _ x Hx) in Hbind as [vs' ->].
  apply new_row_path in Hrow. rewrite path_taken_false in Htaken.
  destruct (Htaken i r Hr); [done|congruence].
Qed.

(** What a create that answers 201 has done. *)
Lemma post_seo_created db b now :
  status (post_seo b now (Some db)).1 = 201 ->
  exists row,
    (post_seo b now (Some db)).2 =
      Some {| seo := <[next_rowid db := row]> (seo db);
              sqlite_sequence := next_rowid db;
              last_insert_rowid := next_rowid db |}
    /\ isPublished row = SInt 1 /\ createdAt row = now /\ updatedAt row = now.
Proof.
  rewrite post_seo_unfold.
  destruct (run_insert db (seo_args b) now) as [[db' result]|e] eqn:Hrun;
    [|discriminate].
  apply run_insert_Ok in Hrun as (vs & row & _ & _ & Hrow & _ & -> & _).
  intros _. exists row. split; [reflexivity|]. by apply new_row_keeps in Hrow.
Qed.


(** ** The UNIQUE constraint on [pagePath] *)

Lemma filter_single {A} (P : A -> Prop) `{forall x, Decision (P x)}
    (l : list A) (a : A) :
  NoDup l -> a ∈ l -> P a -> (forall x, x ∈ l -> P x -> x = a) ->
  length (filter P l) = 1%nat.
Proof.
  induction l as [|x l IH]; intros Hnd Hin Pa Hall.
  - by apply elem_of_nil in Hin.
  - apply NoDup_cons in Hnd as [Hx Hnd]. rewrite filter_cons.
    apply elem_of_cons in Hin as [<-|Hin].
    + rewrite decide_True by done. cbn [length]. f_equal.
      destruct (filter P l) as [|y l'] eqn:Hf; [done|].
      assert (y ∈ filter P l) as [Py Hy]%list_elem_of_filter
        by (rewrite Hf; apply elem_of_cons; by left).
      destruct Hx.
      rewrite <- (Hall y); [done|by apply elem_of_cons; right|done].
    + case_decide as Px.
      * destruct Hx. rewrite (Hall x); [done|by apply elem_of_cons; left|done].
      * apply IH; try done. intros y Hy. apply Hall. apply elem_of_cons. by right.
Qed.

Lemma rows_with_path_one (m : gmap Z SeoRow) i r :
  unique_paths m -> m !! i = Some r -> rows_with_path m (pagePath r) = 1%nat.
Proof.
  intros Hu Hr. unfold rows_with_path.
  apply (filter_single _ _ (i, r)).
  - apply NoDup_map_to_list.
  - by apply elem_of_map_to_list.
  - done.
  - intros [j s] Hjs%elem_of_map_to_list Hp. cbn in Hp.
    assert (j = i) as -> by (by apply (Hu j i s r)). congruence.
Qed.

(** C7. [pagePath] is unique across the stored records and stays so: every
    request, and every run of requests, takes a store with unique paths to a
    store with unique paths; and a create request whose [pagePath] is already
    stored is answered with status 500 and [success: false], leaves the store
    as it was, and the store holds exactly one record with that path. *)
Theorem pagePath_unique (db : Database) :
  unique_paths (seo db) ->
  (forall now req,
     exists db', (serve now req (Some db)).2 = Some db' /\ unique_paths (seo db'))
  /\ (forall reqs,
        exists db', state_after reqs (Some db) = Some db'
                    /\ unique_paths (seo db'))
  /\ (forall b now i r,
        seo db !! i = Some r ->
        column_text (prop b "pagePath") = Some (pagePath r) ->
        status (post_seo b now (Some db)).1 = 500
        /\ field "success" (body (post_seo b now (Some db)).1)
             = Some (JsonBool false)
        /\ (post_seo b now (Some db)).2 = Some db
        /\ rows_with_path (seo db) (pagePath r) = 1%nat).
Proof.
  intros Hu. split; [|split].
  - intros now req. destruct (serve_step now req db) as (db' & Hserve & Hs).
    exists db'. split; [done|]. by apply (store_step_unique db).
  - intros reqs.
    apply (state_after_preserves (fun d => unique_paths (seo d))); [|done].
    intros d d'. apply store_step_unique.
  - intros b now i r Hr Hp.
    destruct (post_seo_rejects db b now i r Hr Hp) as [e ->].
    cbn [fst snd status body].
    split; [reflexivity|]. split; [reflexivity|]. split; [reflexivity|].
    by apply (rows_with_path_one (seo db) i r).
Qed.

End CreateFacts.



(** C7 at the scenario's store: a second create of the same path. *)
Lemma pagePath_unique_witness :
  status (@post_seo decimal_coercion about_body "2024-01-04 00:00:00"
                    (Some about_database)).1 = 500
  /\ (@post_seo decimal_coercion about_body "2024-01-04 00:00:00"
                (Some about_database)).2 = Some about_database
  /\ rows_with_path (seo about_database) "/about" = 1%nat.
Proof.
  assert (unique_paths (seo about_database)) as Hu.
  { intros i j r s Hi Hj _. unfold about_database in Hi, Hj. cbn [seo] in Hi, Hj.
    apply lookup_singleton_Some in Hi as [<- _].
    by apply lookup_singleton_Some in Hj as [<- _]. }
  destruct (proj2 (proj2 (@pagePath_unique decimal_coercion about_database Hu))
              about_body "2024-01-04 00:00:00" 1 about_row)
    as (Hstatus & _ & Hstate & Hcount); try reflexivity.
  by repeat split.
Defined.

(** ** GET /api/v1/seo *)

Lemma select_all_elem db i r : (i, r) ∈ select_all db <-> seo db !! i = Some r.
Proof.
  unfold select_all. rewrite merge_sort_Permutation.
  apply elem_of_map_to_list.
Qed.

Lemma select_all_once db i r :
  seo db !! i = Some r -> occurrences i (select_all db) = 1%nat.
Proof.
  intros Hr. unfold occurrences.
  apply (filter_single _ _ (i, r)).
  - unfold select_all. rewrite merge_sort_Permutation. apply NoDup_map_to_list.
  - by apply select_all_elem.
  - done.
  - intros [j s] Hjs%select_all_elem Hj. cbn in Hj. subst j. congruence.
Qed.

Lemma StronglySorted_lookup {A} (R : relation A) (l : list A) k k' x y :
  StronglySorted R l -> (k < k')%nat ->
  l !! k = Some x -> l !! k' = Some y -> R x y.
Proof.
  intros Hsorted. revert k k'.
  induction Hsorted as [|a l Hsorted IH Hall]; intros k k' Hlt; [done|].
  destruct k' as [|k']; [lia|]. destruct k as [|k]; cbn.
  - intros [= <-] Hy. by apply (proj1 (Forall_lookup _ _) Hall k').
  - apply IH. lia.
Qed.

Lemma select_all_latest_first db : latest_first (row_json <$> select_all db).
Proof.
  intros k l x y Hlt Hx Hy.
  apply list_lookup_fmap_Some in Hx as (ix & -> & Hx).
  apply list_lookup_fmap_Some in Hy as (iy & -> & Hy).
  exists (createdAt ix.2), (createdAt iy.2).
  split; [reflexivity|]. split; [reflexivity|].
  apply (StronglySorted_lookup created_desc (select_all db) k l); try done.
  apply (StronglySorted_merge_sort _).
Qed.

Lemma select_all_presents db :
  Forall2 (fun item (ir : Z * SeoRow) => presents item ir.1 ir.2)
          (row_json <$> select_all db) (select_all db).
Proof.
  apply Forall2_fmap_l, Forall_Forall2_diag, Forall_forall.
  intros [i r] _. apply row_json_presents.
Qed.

Section ListFacts.

Context `{SqliteCoercion}.

(** C6. In every state of the store the list request answers 200 with an
    array that shows, record by record, an enumeration of the table in which
    every stored record occurs exactly once, latest [createdAt] first; in
    particular the record a create request has just inserted occurs exactly
    once in the enumeration the next list request shows. *)
Theorem get_seo_lists_all (db : Database) :
  exists items rows,
    get_seo (Some db) =
      (respond 200 (JsonObj [("success", JsonBool true);
                             ("seoData", JsonArr items)]),
       Some db)
    /\ rows ≡ₚ map_to_list (seo db)
    /\ Forall2 (fun item (ir : Z * SeoRow) => presents item ir.1 ir.2)
               items rows
    /\ length items = size (seo db)
    /\ latest_first items
    /\ (forall i r, (i, r) ∈ rows <-> seo db !! i = Some r)
    /\ (forall i r, seo db !! i = Some r -> occurrences i rows = 1%nat)
    /\ (forall b now,
          status (post_seo b now (Some db)).1 = 201 ->
          exists db' i row items' rows',
            (post_seo b now (Some db)).2 = Some db'
            /\ seo db !! i = None
            /\ seo db' !! i = Some row
            /\ createdAt row = now
            /\ get_seo (Some db') =
                 (respond 200 (JsonObj [("success", JsonBool true);
                                        ("seoData", JsonArr items')]),
                  Some db')
            /\ rows' ≡ₚ map_to_list (seo db')
            /\ Forall2 (fun item (ir : Z * SeoRow) => presents item ir.1 ir.2)
                       items' rows'
            /\ latest_first items'
            /\ (i, row) ∈ rows'
            /\ occurrences i rows' = 1%nat).
Proof.
  exists (row_json <$> select_all db), (select_all db).
  split; [reflexivity|].
  split; [apply merge_sort_Permutation|].
  split; [apply select_all_presents|].
  split.
  { rewrite length_fmap. unfold select_all.
    rewrite merge_sort_Permutation. apply length_map_to_list. }
  split; [apply select_all_latest_first|].
  split; [apply select_all_elem|]. split; [apply select_all_once|].
  intros b now Hcreated.
  destruct (post_seo_created db b now Hcreated) as (row & -> & _ & Hc & _).
  eexists _, (next_rowid db), row, (row_json <$> select_all _), (select_all _).
  split; [reflexivity|]. split; [apply next_rowid_fresh|].
  assert (<[next_rowid db := row]> (seo db) !! next_rowid db = Some row) as Hrow
    by apply lookup_insert_eq.
  split; [exact Hrow|]. split; [exact Hc|]. split; [reflexivity|].
  split; [apply merge_sort_Permutation|].
  split; [apply select_all_presents|].
  split; [apply select_all_latest_first|].
  split; [by apply select_all_elem|by apply (select_all_once _ _ row)].
Qed.

End ListFacts.

(** ** Serving *)

Section ServingFacts.

Context `{SqliteCoercion}.

(** X1. Before the store is opened every SEO route answers 500 with the
    message of the guard of [getDatabase], and the state stays unset. *)
Theorem serve_uninitialized (now : string) (req : request) :
  serve now req None = (respond 500 (failure NotInitialized), None)
  /\ field "error" (failure NotInitialized)
       = Some (JsonStr "Database not initialized. Call initializeDatabase() first.").
Proof. split; [|reflexivity]. destruct req; reflexivity. Qed.

(** X2. [startServer] listens exactly when the store opened and the table
    statement ran, and then the gateway holds the opened store; otherwise
    the process exits with code 1. *)
Theorem startServer_outcome (env : init_env Database) :
  match startServer env with
  | Listening g =>
      exists db, g = Some db /\ open_store env = Ok db
                 /\ opened env && created env = true
  | Exited code => code = 1 /\ opened env && created env = false
  end.
Proof.
  unfold startServer, opened, created. rewrite initializeDatabase_cases.
  destruct (open_store env) as [db|e]; [|done].
  destruct (create_table env) as [[]|e]; [|done].
  by exists db.
Qed.

(** Get-by-path on a store where one published record alone carries the
    path. *)
Lemma get_seo_page_at db p i r :
  pagePath r = p ->
  seo db !! i = Some r ->
  isPublished r = SInt 1 ->
  (forall j s, seo db !! j = Some s -> pagePath s = p -> j = i) ->
  get_seo_page p (Some db) =
    (respond 200 (JsonObj [("success", JsonBool true);
                           ("seoData", row_json (i, r))]),
     Some db).
Proof.
  intros Hp Hr Hpub Honly.
  unfold get_seo_page, try_catch. cbn [getDatabase snd mbind Result_bind].
  destruct (select_published db p) as [[j s]|] eqn:Hsel.
  - apply select_published_Some in Hsel as (Hs & Hps & _).
    assert (j = i) as -> by (by apply (Honly j s)).
    by replace s with r by congruence.
  - rewrite select_published_None in Hsel. by destruct (Hsel i r).
Qed.

(** X3. The record get-by-path answers with when a published record carries
    the path: status 200 and that record, every column as it is stored,
    without the [twitterCard] only the fallback has. *)
Theorem get_seo_page_found (db : Database) (i : Z) (r : SeoRow) :
  unique_paths (seo db) ->
  seo db !! i = Some r ->
  isPublished r = SInt 1 ->
  exists record,
    get_seo_page (pagePath r) (Some db) =
      (respond 200 (JsonObj [("success", JsonBool true);
                             ("seoData", record)]),
       Some db)
    /\ presents record i r
    /\ field "isPublished" record = Some (JsonNum 1)
    /\ field "twitterCard" record = None.
Proof.
  intros Hu Hr Hpub. exists (row_json (i, r)).
  split.
  { apply get_seo_page_at; try done.
    intros j s Hs Hp. by apply (Hu j i s r). }
  split; [apply row_json_presents|].
  split; [|reflexivity].
  change (field "isPublished" (row_json (i, r)))
    with (Some (json_of_sql (isPublished r))).
  by rewrite Hpub.
Qed.

End ServingFacts.

(** The published record of the store of the two pages that carries
    "/contact" is what the path gets, column by column. *)
Lemma get_seo_page_found_witness :
  exists record,
    get_seo_page "/contact" (Some two_pages_database) =
      (respond 200 (JsonObj [("success", JsonBool true);
                             ("seoData", record)]),
       Some two_pages_database)
    /\ field "id" record = Some (JsonNum 2)
    /\ field "pagePath" record = Some (JsonStr "/contact")
    /\ field "content" record = Some JsonNull
    /\ field "keywords" record = Some (JsonStr "contact, email")
    /\ field "seoScore" record = Some (JsonNum 90)
    /\ field "isPublished" record = Some (JsonNum 1)
    /\ field "twitterCard" record = None.
Proof.
  destruct (get_seo_page_found two_pages_database 2 contact_row
              two_pages_database_unique eq_refl eq_refl)
    as (record & Hget & Hshown & Hpub & Hcard).
  destruct Hshown as (Hid & Hp & _ & _ & _ & Hcontent & Hkeywords & _ & _ & _
                      & _ & _ & _ & _ & _ & Hscore & _).
  exists record. split; [exact Hget|]. split; [exact Hid|].
  split; [exact Hp|]. split; [exact Hcontent|]. split; [exact Hkeywords|].
  split; [exact Hscore|]. split; [exact Hpub|exact Hcard].
Defined.

(** The scenario of the specification, run from the empty store: create
    "/about", get it by path, update its score to 95, delete it, and get the
    path again. *)
Lemma scenario_of_the_specification :
  let t1 := "2024-01-01 00:00:00" in
  let t2 := "2024-01-02 00:00:00" in
  let r1 := @post_seo decimal_coercion about_body t1 (Some empty_database) in
  let r2 := get_seo_page "/about" r1.2 in
  let r3 := @put_seo decimal_coercion "1"
              (<["seoScore" := JNum 95]> about_body) t2 r2.2 in
  let r4 := @delete_seo decimal_coercion "1" r3.2 in
  let r5 := get_seo_page "/about" r4.2 in
  (status r1.1 = 201
   /\ field "seoData" (body r1.1) = Some (row_json (1, about_row))
   /\ r1.2 = Some about_database)
  /\ r2.1 = respond 200 (JsonObj [("success", JsonBool true);
                                  ("seoData", row_json (1, about_row))])
  /\ (status r3.1 = 200
      /\ (field "seoData" (body r3.1) ≫= field "seoScore") = Some (JsonNum 95)
      /\ (field "seoData" (body r3.1) ≫= field "updatedAt") = Some (JsonStr t2)
      /\ (field "seoData" (body r3.1) ≫= field "createdAt") = Some (JsonStr t1))
  /\ (status r4.1 = 200 /\ r4.2 = Some emptied_database)
  /\ r5.1 = respond 200 (JsonObj [("success", JsonBool true);
                                  ("seoData", fallback "/about")]).
Proof. vm_compute. repeat split. Qed.

(** ** Every answer of the router *)

Section EnvelopeFacts.

Context `{SqliteCoercion}.

Lemma serve_unset now req :
  serve now req None = (respond 500 (failure NotInitialized), None).
Proof. destruct req; reflexivity. Qed.

Ltac envelope_case :=
  cbn [fst status body];
  split; [auto 6|];
  split; [reflexivity|];
  split; [first [discriminate | (intros _; eexists; reflexivity)]|];
  split;
    [split;
       [first [discriminate
              | (intros _; split; [eexists; reflexivity|discriminate])]
       |first [(intros _; reflexivity)
              | (intros [_ Hne]; by destruct Hne)
              | (intros [[? [=]] _])]]
    |first [discriminate
           | (intros _; left; eexists _, _; reflexivity)
           | (intros _; right; eexists; reflexivity)]].

(** X4. Every answer of the five SEO routes, in every state of the gateway, is
    an envelope: the status is 200, 201, 404 or 500, the field [success] is
    [true] exactly when the status is below 400, a failed request carries a
    text in [error], only a create answers 201 and a create answers nothing
    but 201 and 500, and only an update or a delete answers 404. *)
Theorem serve_envelope (now : string) (req : request) (g : option Database) :
  let res := (serve now req g).1 in
  (status res = 200 \/ status res = 201 \/ status res = 404 \/ status res = 500)
  /\ field "success" (body res) = Some (JsonBool (status res <? 400))
  /\ ((status res <? 400) = false ->
      exists msg, field "error" (body res) = Some (JsonStr msg))
  /\ (status res = 201 <-> (exists b, req = PostSeo b) /\ status res <> 500)
  /\ (status res = 404 ->
      (exists id b, req = PutSeo id b) \/ (exists id, req = DeleteSeo id)).
Proof.
  destruct g as [db|].
  - destruct (serve_answer now req db) as (res & db' & -> & Hanswer).
    destruct Hanswer; envelope_case.
  - rewrite serve_unset. destruct req; envelope_case.
Qed.

(** X5. A request that is answered with an error, and any request to the two
    GET routes, leaves the gateway, hence the store, exactly as it was: only
    a 201 of create and a 200 of update or delete go with a change. *)
Theorem serve_failure_atomic
    (now : string) (req : request) (g : option Database) :
  (status (serve now req g).1 = 404 \/ status (serve now req g).1 = 500 ->
   (serve now req g).2 = g)
  /\ (req = GetSeo \/ (exists p, req = GetSeoPage p) ->
      (serve now req g).2 = g).
Proof.
  destruct g as [db|]; [|by rewrite serve_unset].
  destruct (serve_answer now req db) as (res & db' & -> & Hanswer).
  cbn [fst snd].
  destruct Hanswer; cbn [status];
    (split;
       [first [reflexivity | (intros [Hs|Hs]; discriminate Hs)]
       |first [reflexivity | (intros [Hr|[p' Hr]]; discriminate Hr)]]).
Qed.

(** X6. How the number of stored records moves with the answer: a 201 adds one
    record, a 200 of delete removes one, every other answer leaves the
    number as it was. *)
Theorem serve_row_count (now : string) (req : request) (db : Database) :
  exists db',
    (serve now req (Some db)).2 = Some db'
    /\ (status (serve now req (Some db)).1 = 201 ->
        size (seo db') = S (size (seo db)))
    /\ ((exists id, req = DeleteSeo id) ->
        status (serve now req (Some db)).1 = 200 ->
        S (size (seo db')) = size (seo db))
    /\ (status (serve now req (Some db)).1 <> 201 ->
        (forall id, req <> DeleteSeo id)
        \/ status (serve now req (Some db)).1 <> 200 ->
        size (seo db') = size (seo db)).
Proof.
  destruct (serve_answer now req db) as (res & db' & -> & Hanswer).
  exists db'. cbn [fst snd]. split; [reflexivity|].
  destruct Hanswer as [| | | |id b i old row extra Hold| id i old Hold| | | | |];
    cbn [status seo];
    try (split; [discriminate|]; split; [by intros [? [=]]|done]).
  - split; [intros _; apply map_size_insert_None, next_rowid_fresh|].
    split; [by intros [? [=]]|]. intros Hne. by destruct Hne.
  - split; [discriminate|]. split; [by intros [? [=]]|]. intros _ _.
    apply map_size_insert_Some. eauto.
  - split; [discriminate|]. split.
    + intros _ _. rewrite map_size_delete_Some by eauto.
      pose proof (map_size_empty_iff (seo db)) as Hempty.
      destruct (size (seo db)) as [|n] eqn:Hsize; [|done].
      rewrite (proj1 Hempty eq_refl) in *. by rewrite lookup_empty in *.
    + intros _ [Hreq|Hs]; [by destruct (Hreq id)|done].
Qed.

End EnvelopeFacts.

(** ** What a run of requests keeps *)

Section RunFacts.

Context `{SqliteCoercion}.

(** A property every answer preserves holds after any run; the clock
    reading of each request is at hand. *)
Lemma state_after_invariant (P : string -> Database -> Prop) :
  (forall t now req d res d',
     String.leb t now = true -> answer now d req res d' -> P t d -> P now d') ->
  forall reqs t db, clock_ordered t reqs -> P t db ->
    exists t' db', state_after reqs (Some db) = Some db' /\ P t' db'.
Proof.
  intros Hstep reqs.
  induction reqs as [|[now req] reqs IH]; intros t db Hclock HP.
  - by exists t, db.
  - destruct Hclock as [Hle Hclock]. rewrite state_after_cons.
    destruct (serve_answer now req db) as (res & db1 & -> & Hanswer).
    cbn [snd]. apply (IH now db1 Hclock). by apply (Hstep t now req db res).
Qed.

(** X7. No request ever changes the [isPublished] or the [createdAt] of a stored
    record: in a store whose [sqlite_sequence] bounds its [id]s, a record
    found under the same [id] after any run of requests carries the values
    it had before. *)
Theorem run_keeps_published_and_created
    (reqs : list (string * request)) (db db' : Database) :
  sequence_bounds db ->
  state_after reqs (Some db) = Some db' ->
  forall i r r',
    seo db !! i = Some r -> seo db' !! i = Some r' ->
    isPublished r' = isPublished r /\ createdAt r' = createdAt r.
Proof.
  intros Hb Hafter.
  pose (P := fun d : Database =>
               sequence_bounds d
               /\ sqlite_sequence db <= sqlite_sequence d
               /\ forall i r', seo d !! i = Some r' -> i <= sqlite_sequence db ->
                    exists r, seo db !! i = Some r
                              /\ isPublished r' = isPublished r
                              /\ createdAt r' = createdAt r).
  assert (P db') as (_ & _ & Hkeep).
  { destruct (state_after_preserves P) with (reqs := reqs) (db := db)
      as (d & Hd & HP).
    - intros d d' Hstep (Hbd & Hle & Hrows).
      destruct (store_step_sequence d d' Hstep) as [Hle' Hbd'].
      split; [by apply Hbd'|]. split; [lia|].
      pose proof (next_rowid_above_sequence d) as Hnext.
      destruct Hstep as [|row Hfree|j old row Hold Hp Hc Hfree|j];
        cbn [seo]; intros i r'; try exact (Hrows i r').
      + intros [[<- _]|[_ Hi]]%lookup_insert_Some Hi'; [lia|]. by apply Hrows.
      + intros [[<- <-]|[_ Hi]]%lookup_insert_Some Hi'; [|by apply Hrows].
        destruct (Hrows j old Hold Hi') as (r & Hr & Hp' & Hc').
        exists r. split; [done|]. split; congruence.
      + intros [_ Hi]%lookup_delete_Some Hi'. by apply Hrows.
    - split; [done|]. split; [lia|]. intros i r' Hi _. by exists r'.
    - rewrite Hafter in Hd. by injection Hd as <-. }
  intros i r r' Hr Hr'.
  destruct (Hkeep i r' Hr' (Hb i r Hr)) as (r0 & Hr0 & Hp & Hc).
  by replace r with r0 by congruence.
Qed.

End RunFacts.

Section RetrievalFacts.

Context `{SqliteCoercion}.

Lemma state_after_answers (P : Database -> Prop) :
  (forall now req d res d', answer now d req res d' -> P d -> P d') ->
  forall reqs db, P db ->
    exists db', state_after reqs (Some db) = Some db' /\ P db'.
Proof.
  intros Hstep reqs. induction reqs as [|[now req] reqs IH]; intros db HP.
  - by exists db.
  - rewrite state_after_cons.
    destruct (serve_answer now req db) as (res & db1 & -> & Hanswer).
    cbn [snd]. apply IH. by apply (Hstep now req db res).
Qed.

Lemma answer_all_published now db req res db' :
  answer now db req res db' -> all_published db -> all_published db'.
Proof.
  destruct 1 as [| | |b row extra Hp _ _ _|id b i old row extra Hold Hp _ _ _
                 |id i old Hold| | | | |];
    try done; intros Hall j r; cbn [seo].
  - intros [[_ <-]|[_ Hj]]%lookup_insert_Some; [done|by apply (Hall j)].
  - intros [[_ <-]|[_ Hj]]%lookup_insert_Some; [|by apply (Hall j)].
    rewrite Hp. by apply (Hall i).
  - intros [_ Hj]%lookup_delete_Some. by apply (Hall j).
Qed.

(** X8. In a store where [pagePath] is unique and every record is published,
    as the empty store is, any run of requests leaves such a store, and
    every record it holds is what get-by-path answers for the record's own
    path, column by column: no stored record is ever hidden behind the
    fallback. *)
Theorem run_keeps_records_retrievable
    (db0 : Database) (reqs : list (string * request)) :
  unique_paths (seo db0) ->
  all_published db0 ->
  exists db,
    state_after reqs (Some db0) = Some db
    /\ unique_paths (seo db)
    /\ all_published db
    /\ forall i r,
         seo db !! i = Some r ->
         exists record,
           get_seo_page (pagePath r) (Some db) =
             (respond 200 (JsonObj [("success", JsonBool true);
                                    ("seoData", record)]),
              Some db)
           /\ presents record i r.
Proof.
  intros Hu Hall.
  destruct (state_after_answers
              (fun d => unique_paths (seo d) /\ all_published d))
    with (reqs := reqs) (db := db0) as (db & Hafter & Hu' & Hall').
  - intros now req d res d' Hanswer [Hud Halld]. split.
    + by apply (store_step_unique d d' (answer_step _ _ _ _ _ Hanswer)).
    + by apply (answer_all_published now d req res d').
  - done.
  - exists db. split; [done|]. split; [done|]. split; [done|].
    intros i r Hr. exists (row_json (i, r)).
    split; [|apply row_json_presents].
    apply get_seo_page_at; [done|done|by apply (Hall' i)|].
    intros j s Hs Hp. by apply (Hu' j i s r).
Qed.

Lemma string_leb_refl (s : string) : String.leb s s = true.
Proof. unfold String.leb. by rewrite string_compare_refl. Qed.

Lemma answer_timestamps_ordered t now db req res db' :
  String.leb t now = true ->
  answer now db req res db' ->
  timestamps_ordered t db -> timestamps_ordered now db'.
Proof.
  intros Hle Hanswer Hord.
  assert (timestamps_ordered now db) as Hnow.
  { intros j r Hj. destruct (Hord j r Hj) as [Hcu Hut].
    split; [done|]. by apply (string_leb_trans _ t). }
  destruct Hanswer
    as [| | |b row extra _ Hc Hu _|id b i old row extra Hold _ Hc Hu _
        |id i old Hold| | | | |];
    try done; intros j r; cbn [seo].
  - intros [[_ <-]|[_ Hj]]%lookup_insert_Some; [|by apply (Hnow j)].
    rewrite Hc, Hu. split; apply string_leb_refl.
  - intros [[_ <-]|[_ Hj]]%lookup_insert_Some; [|by apply (Hnow j)].
    rewrite Hc, Hu. destruct (Hnow i old Hold) as [Hcu Hut].
    split; [|apply string_leb_refl].
    by apply (string_leb_trans _ (updatedAt old)).
  - intros [_ Hj]%lookup_delete_Some. by apply (Hnow j).
Qed.

(** X9. When the clock never goes back, every stored record was created no
    later than it was last updated, after any run of requests from a store
    of which this holds (as it does of the empty store). *)
Theorem run_orders_timestamps
    (t : string) (db : Database) (reqs : list (string * request)) :
  timestamps_ordered t db ->
  clock_ordered t reqs ->
  exists db',
    state_after reqs (Some db) = Some db'
    /\ forall i r, seo db' !! i = Some r ->
         String.leb (createdAt r) (updatedAt r) = true.
Proof.
  intros Hord Hclock.
  destruct (state_after_invariant timestamps_ordered) with (reqs := reqs)
    (t := t) (db := db) as (t' & db' & Hafter & Hord'); try done.
  - intros t0 now req d res d'. apply answer_timestamps_ordered.
  - exists db'. split; [done|]. intros i r Hr. by destruct (Hord' i r Hr).
Qed.

End RetrievalFacts.

(** ** How the routes compose *)

Lemma foldr_max_le (l : list Z) (bound : Z) :
  0 <= bound -> (forall x, x ∈ l -> x <= bound) -> foldr Z.max 0 l <= bound.
Proof.
  intros Hbound. induction l as [|x l IH]; intros Hall; simpl; [done|].
  assert (x <= bound) by (apply Hall, elem_of_cons; by left).
  assert (foldr Z.max 0 l <= bound)
    by (apply IH; intros y Hy; apply Hall, elem_of_cons; by right).
  lia.
Qed.

(** Deleting a row never raises the next rowid. *)
Lemma next_rowid_delete db i :
  next_rowid {| seo := delete i (seo db);
                sqlite_sequence := sqlite_sequence db;
                last_insert_rowid := last_insert_rowid db |}
    <= next_rowid db.
Proof.
  unfold next_rowid. cbn [seo sqlite_sequence].
  assert (max_rowid (delete i (seo db)) <= max_rowid (seo db)); [|lia].
  apply foldr_max_le; [apply foldr_max_nonneg|].
  intros j [[j' r] [-> Hjr]]%list_elem_of_fmap.
  apply elem_of_map_to_list in Hjr as [_ Hr]%lookup_delete_Some.
  by apply (max_rowid_bound _ _ r).
Qed.

Section CompositionFacts.

Context `{SqliteCoercion}.

Lemma delete_seo_removes db id i r :
  int_of_text id = Some i ->
  seo db !! i = Some r ->
  delete_seo id (Some db) =
    (respond 200 (JsonObj [("success", JsonBool true);
                           ("message", JsonStr "SEO data deleted successfully")]),
     Some {| seo := delete i (seo db);
             sqlite_sequence := sqlite_sequence db;
             last_insert_rowid := last_insert_rowid db |}).
Proof.
  intros Hid Hr.
  by rewrite delete_seo_unfold, run_delete_cases, (match_some db id i r Hid Hr).
Qed.

(** X10. Create, then get by path: the record a create request has just
    stored, for a body the binder binds field by field and a next rowid of
    at most 2^53, is what get-by-path answers for its path, column by
    column: the same record the 201 carried, and not the fallback. *)
Theorem post_then_get_page
    (db : Database) (b : gmap string jsval) (now : string)
    (p t mt md : string) :
  bindable b ->
  column_text (prop b "pagePath") = Some p ->
  column_text (prop b "pageTitle") = Some t ->
  column_text (prop b "metaTitle") = Some mt ->
  column_text (prop b "metaDescription") = Some md ->
  (forall j r, seo db !! j = Some r -> pagePath r <> p) ->
  next_rowid db <= 2 ^ 53 ->
  let created := post_seo b now (Some db) in
  let found := get_seo_page p created.2 in
  status created.1 = 201
  /\ status found.1 = 200
  /\ found.2 = created.2
  /\ exists record row,
       field "seoData" (body found.1) = Some record
       /\ field "seoData" (body created.1) = Some record
       /\ (created.2 ≫= fun d => seo d !! next_rowid db) = Some row
       /\ presents record (next_rowid db) row
       /\ field "id" record = Some (JsonNum (next_rowid db))
       /\ field "pagePath" record = Some (JsonStr p)
       /\ field "isPublished" record = Some (JsonNum 1)
       /\ field "createdAt" record = Some (JsonStr now)
       /\ field "twitterCard" record = None.
Proof.
  intros Hb%bindable_args Hp Ht Hmt Hmd Hfree Hnext created found.
  subst created found.
  pose proof (next_rowid_positive db) as Hpos.
  rewrite (post_seo_accepts db b now p t mt md Hb Hp Ht Hmt Hmd Hfree Hnext).
  cbn [fst snd status].
  rewrite (get_seo_page_at _ p (next_rowid db)
             (row_of_body b p t mt md (SInt 1) now now)).
  - cbn [fst snd status body]. split; [done|]. split; [done|]. split; [done|].
    eexists _, _. split; [reflexivity|]. split; [reflexivity|].
    split; [cbn [mbind option_bind seo]; apply lookup_insert_eq|].
    split; [apply row_json_presents|].
    split; [apply (presents_id _ _ _ (row_json_presents _ _)); lia|].
    by repeat split.
  - reflexivity.
  - cbn [seo]. apply lookup_insert_eq.
  - reflexivity.
  - cbn [seo]. intros j s [[<- _]|[_ Hs]]%lookup_insert_Some Hps; [done|].
    by destruct (Hfree j s Hs).
Qed.

(** X11. Update, then get by path: after an accepted update of a published
    record in a store with unique paths, get-by-path answers the updated
    record for the new path, column by column, the same record the 200
    carried, and, when the update changed the path, the fallback for the old
    one. *)
Theorem put_then_get_page
    (db : Database) (id : string) (b : gmap string jsval) (now : string)
    (i : Z) (old : SeoRow) (p t mt md : string) :
  unique_paths (seo db) ->
  int_of_text id = Some i ->
  seo db !! i = Some old ->
  isPublished old = SInt 1 ->
  bindable b ->
  column_text (prop b "pagePath") = Some p ->
  column_text (prop b "pageTitle") = Some t ->
  column_text (prop b "metaTitle") = Some mt ->
  column_text (prop b "metaDescription") = Some md ->
  (forall j r, seo db !! j = Some r -> j <> i -> pagePath r <> p) ->
  let updated := put_seo id b now (Some db) in
  status updated.1 = 200
  /\ (exists record row,
        (get_seo_page p updated.2).1 =
          respond 200 (JsonObj [("success", JsonBool true);
                                ("seoData", record)])
        /\ field "seoData" (body updated.1) = Some record
        /\ (updated.2 ≫= fun d => seo d !! i) = Some row
        /\ presents record i row
        /\ field "pagePath" record = Some (JsonStr p)
        /\ field "isPublished" record = Some (JsonNum 1)
        /\ field "createdAt" record = Some (JsonStr (createdAt old))
        /\ field "updatedAt" record = Some (JsonStr now))
  /\ (pagePath old <> p ->
      (get_seo_page (pagePath old) updated.2).1 =
        respond 200 (JsonObj [("success", JsonBool true);
                              ("seoData", fallback (pagePath old))])).
Proof.
  intros Hu Hid Hold Hpub Hb%bindable_args Hp Ht Hmt Hmd Hfree updated.
  subst updated.
  rewrite (put_seo_accepts db id b now i old p t mt md
             Hid Hold Hb Hp Ht Hmt Hmd Hfree).
  cbn [fst snd status body]. rewrite Hpub. split; [done|]. split.
  - rewrite (get_seo_page_at _ p i
               (row_of_body b p t mt md (SInt 1) (createdAt old) now)).
    + eexists _, _. split; [reflexivity|]. split; [reflexivity|].
      split; [cbn [mbind option_bind seo]; apply lookup_insert_eq|].
      split; [apply row_json_presents|]. by repeat split.
    + reflexivity.
    + cbn [seo]. apply lookup_insert_eq.
    + reflexivity.
    + cbn [seo]. intros j s [[<- _]|[Hne Hs]]%lookup_insert_Some Hps; [done|].
      by destruct (Hfree j s Hs).
  - intros Hmoved. rewrite get_seo_page_missing; [done|].
    cbn [seo]. intros j s [[<- <-]|[Hne Hs]]%lookup_insert_Some Hps.
    + by destruct Hmoved.
    + destruct Hne. symmetry. by apply (Hu j i s old).
Qed.

(** X12. Delete, then anything keyed by the deleted record: in a store with
    unique paths, after a delete that answered 200, get-by-path answers the
    fallback for the deleted record's path, a second delete of the same
    [id] answers 404, and so does an update of it whose body the binder
    binds field by field; an update with any other body answers 404 or 500;
    none of them changes anything. *)
Theorem delete_then_gone
    (db : Database) (id : string) (i : Z) (r : SeoRow) :
  unique_paths (seo db) ->
  int_of_text id = Some i ->
  seo db !! i = Some r ->
  let deleted := delete_seo id (Some db) in
  status deleted.1 = 200
  /\ get_seo_page (pagePath r) deleted.2 =
       (respond 200 (JsonObj [("success", JsonBool true);
                              ("seoData", fallback (pagePath r))]),
        deleted.2)
  /\ delete_seo id deleted.2 = (respond 404 not_found, deleted.2)
  /\ (forall b now,
        bindable b ->
        put_seo id b now deleted.2 = (respond 404 not_found, deleted.2))
  /\ (forall b now,
        (put_seo id b now deleted.2).2 = deleted.2
        /\ (status (put_seo id b now deleted.2).1 = 404
            \/ status (put_seo id b now deleted.2).1 = 500)).
Proof.
  intros Hu Hid Hr deleted. subst deleted.
  rewrite (delete_seo_removes db id i r Hid Hr). cbn [fst snd status].
  set (db1 := {| seo := delete i (seo db);
                 sqlite_sequence := sqlite_sequence db;
                 last_insert_rowid := last_insert_rowid db |}).
  assert (forall j, int_of_text id = Some j -> seo db1 !! j = None) as Hgone.
  { intros j Hj. replace j with i by congruence. apply lookup_delete_eq. }
  split; [done|]. split; [|split; [|split]].
  - rewrite get_seo_page_missing; [done|].
    cbn [seo db1]. intros j s [Hne Hs]%lookup_delete_Some Hps.
    destruct Hne. symmetry. by apply (Hu j i s r).
  - by rewrite delete_seo_unfold, run_delete_cases, match_none.
  - intros b now Hb%bindable_args.
    by rewrite put_seo_unfold, run_update_cases, match_none.
  - intros b now.
    destruct (put_seo_unmatched db1 id b now Hgone) as [->|[e ->]];
      cbn [fst snd status]; auto.
Qed.

(** X13. Delete, then create the same path again: once its record is deleted a
    path is free; a create request for it, with a body the binder binds
    field by field and a next rowid of at most 2^53, is answered 201, and
    the new record gets an [id] above the deleted one, never the freed
    [id]. *)
Theorem delete_then_create
    (db : Database) (id : string) (i : Z) (r : SeoRow)
    (b : gmap string jsval) (now : string) (t mt md : string) :
  unique_paths (seo db) ->
  sequence_bounds db ->
  int_of_text id = Some i ->
  seo db !! i = Some r ->
  bindable b ->
  column_text (prop b "pagePath") = Some (pagePath r) ->
  column_text (prop b "pageTitle") = Some t ->
  column_text (prop b "metaTitle") = Some mt ->
  column_text (prop b "metaDescription") = Some md ->
  next_rowid db <= 2 ^ 53 ->
  let created := post_seo b now (delete_seo id (Some db)).2 in
  status created.1 = 201
  /\ exists i' record row,
       field "seoData" (body created.1) = Some record
       /\ presents record i' row
       /\ field "id" record = Some (JsonNum i')
       /\ field "pagePath" record = Some (JsonStr (pagePath r))
       /\ i < i'
       /\ (created.2 ≫= fun d => seo d !! i) = None
       /\ (created.2 ≫= fun d => seo d !! i') = Some row.
Proof.
  intros Hu Hb Hid Hr Hbody%bindable_args Hp Ht Hmt Hmd Hnext created.
  subst created.
  rewrite (delete_seo_removes db id i r Hid Hr). cbn [snd].
  set (db1 := {| seo := delete i (seo db);
                 sqlite_sequence := sqlite_sequence db;
                 last_insert_rowid := last_insert_rowid db |}).
  pose proof (next_rowid_delete db i) as Hle. fold db1 in Hle.
  pose proof (next_rowid_positive db1) as Hpos.
  rewrite (post_seo_accepts db1 b now (pagePath r) t mt md Hbody Hp Ht Hmt Hmd).
  - cbn [fst snd status body]. split; [done|].
    assert (i < next_rowid db1) as Hlt.
    { pose proof (next_rowid_above_sequence db1) as Hseq.
      pose proof (Hb i r Hr) as Hi. cbn [db1 sqlite_sequence] in Hseq. lia. }
    eexists _, _, _. split; [reflexivity|].
    split; [apply row_json_presents|].
    split; [apply (presents_id _ _ _ (row_json_presents _ _)); lia|].
    split; [reflexivity|]. split; [done|].
    cbn [mbind option_bind seo db1]. split.
    + rewrite lookup_insert_ne by lia. apply lookup_delete_eq.
    + apply lookup_insert_eq.
  - cbn [seo db1]. intros j s [Hne Hs]%lookup_delete_Some Hps.
    destruct Hne. symmetry. by apply (Hu j i s r).
  - lia.
Qed.

End CompositionFacts.

(** ** Bodies the store refuses, and fields a body leaves out *)

Section BodyFacts.

Context `{SqliteCoercion}.

Lemma column_text_missing v : scalar v -> column_text v = None <-> missing v.
Proof.
  unfold column_text, missing.
  destruct v; cbn; intros Hv; split; intros Hm; try done;
    first [by left | by right | by destruct Hm].
Qed.

Ltac column_listed :=
  repeat first [by (apply elem_of_cons; left) | (apply elem_of_cons; right)].

Lemma new_row_missing b published created updated :
  bindable b ->
  missing (prop b "pagePath") \/ missing (prop b "pageTitle")
  \/ missing (prop b "metaTitle") \/ missing (prop b "metaDescription") ->
  exists column,
    new_row (sql_of_js <$> seo_args b) published created updated
      = Throw (NotNullViolation column)
    /\ column ∈ ["seo.pagePath"; "seo.pageTitle"; "seo.metaTitle";
                 "seo.metaDescription"].
Proof.
  intros [Htext _]. unfold text_fields in Htext.
  apply Forall_cons in Htext as [Hp Htext].
  apply Forall_cons in Htext as [Ht Htext].
  apply Forall_cons in Htext as [Hmt Htext].
  apply Forall_cons in Htext as [Hmd _].
  rewrite <- !column_text_missing, new_row_body by done.
  destruct (column_text (prop b "pagePath"));
    [|eexists; split; [done|column_listed]].
  destruct (column_text (prop b "pageTitle"));
    [|eexists; split; [done|column_listed]].
  destruct (column_text (prop b "metaTitle"));
    [|eexists; split; [done|column_listed]].
  destruct (column_text (prop b "metaDescription"));
    [|eexists; split; [done|column_listed]].
  intros [?|[?|[?|?]]]; done.
Qed.

(** X14. The handlers validate nothing themselves: a create request (on a
    table that is not full), or an update request for a stored [id], whose
    body the binder binds field by field and which lacks one of the four
    required fields (absent or [null]), is refused by the store's NOT NULL
    constraint on that column, answered 500 with that error, and changes
    nothing; the same update for an [id] that is not stored answers 404
    instead. *)
Theorem required_fields_enforced
    (db : Database) (b : gmap string jsval) (now : string) :
  bindable b ->
  missing (prop b "pagePath") \/ missing (prop b "pageTitle")
  \/ missing (prop b "metaTitle") \/ missing (prop b "metaDescription") ->
  (next_rowid db <= rowid_limit ->
   exists column,
     post_seo b now (Some db)
       = (respond 500 (failure (NotNullViolation column)), Some db)
     /\ field "error" (body (post_seo b now (Some db)).1)
          = Some (JsonStr ("NOT NULL constraint failed: " ++ column)%string)
     /\ column ∈ ["seo.pagePath"; "seo.pageTitle"; "seo.metaTitle";
                  "seo.metaDescription"])
  /\ (forall id i old,
        int_of_text id = Some i -> seo db !! i = Some old ->
        exists column,
          put_seo id b now (Some db)
            = (respond 500 (failure (NotNullViolation column)), Some db)
          /\ field "error" (body (put_seo id b now (Some db)).1)
               = Some (JsonStr ("NOT NULL constraint failed: " ++ column)%string)
          /\ column ∈ ["seo.pagePath"; "seo.pageTitle"; "seo.metaTitle";
                       "seo.metaDescription"])
  /\ (forall id,
        (forall i, int_of_text id = Some i -> seo db !! i = None) ->
        put_seo id b now (Some db) = (respond 404 not_found, Some db)).
Proof.
  intros Hb Hmissing. pose proof (bindable_args b Hb) as Hargs.
  split; [|split].
  - intros Hroom.
    destruct (new_row_missing b (SInt 1) now now Hb Hmissing)
      as (column & Hrow & Hin).
    assert (post_seo b now (Some db)
            = (respond 500 (failure (NotNullViolation column)), Some db))
      as Hpost.
    { rewrite post_seo_unfold, run_insert_cases, Hrow by done.
      assert ((rowid_limit <=? Z.max (max_rowid (seo db)) (sqlite_sequence db))
              = false) as ->; [|done].
      apply Z.leb_gt. unfold next_rowid in Hroom. lia. }
    exists column. by rewrite Hpost.
  - intros id i old Hid Hold.
    destruct (new_row_missing b (isPublished old) (createdAt old) now
                Hb Hmissing) as (column & Hrow & Hin).
    assert (put_seo id b now (Some db)
            = (respond 500 (failure (NotNullViolation column)), Some db))
      as Hput.
    { by rewrite put_seo_unfold, run_update_cases,
           (match_some db id i old Hid Hold), Hrow. }
    exists column. by rewrite Hput.
  - intros id Hnone.
    by rewrite put_seo_unfold, run_update_cases, (match_none db id Hnone).
Qed.

(** An update that would take the path of another record is refused,
    whatever else the body holds. *)
Lemma put_seo_rejects db id b now i j old other :
  int_of_text id = Some i ->
  seo db !! i = Some old ->
  seo db !! j = Some other ->
  j <> i ->
  column_text (prop b "pagePath") = Some (pagePath other) ->
  exists e, put_seo id b now (Some db) = (respond 500 (failure e), Some db).
Proof.
  intros Hid Hold Hother Hne Hp. rewrite put_seo_unfold.
  destruct (run_update db (seo_args b ++ [JStr id]) now)
    as [[db' result]|e] eqn:Hrun; [|by exists e].
  apply run_update_Ok in Hrun
    as [(_ & _ & Hnone)|(i' & old' & vs & row & Hid' & _ & Hbind & Hrow
                          & Htaken & _)].
  { by rewrite (Hnone i Hid) in Hold. }
  assert (i' = i) as -> by congruence.
  unfold column_text in Hp.
  destruct (bind (prop b "pagePath")) as [x|] eqn:Hx; [|done].
  cbn [mbind option_bind] in Hp.
  unfold seo_args in Hbind. cbn [app] in Hbind.
  apply (bind_all_head _ _ _ _ x Hx) in Hbind as [vs' Hvs].
  pose proof (new_row_length _ _ _ _ _ Hrow) as Hlen.
  destruct vs as [|y vs]; [done|]. injection Hvs as -> _.
  apply new_row_path in Hrow. rewrite path_taken_false in Htaken.
  destruct (Htaken j other Hother); congruence.
Qed.

(** X15. An update that would give a record the [pagePath] of another stored
    record is refused: it answers 500 with [success: false] and changes
    nothing, with the UNIQUE failure as its error when the binder binds the
    body field by field and the other required fields are present. *)
Theorem put_seo_conflict
    (db : Database) (id : string) (b : gmap string jsval) (now : string)
    (i j : Z) (old other : SeoRow) :
  int_of_text id = Some i ->
  seo db !! i = Some old ->
  seo db !! j = Some other ->
  j <> i ->
  column_text (prop b "pagePath") = Some (pagePath other) ->
  (exists e, put_seo id b now (Some db) = (respond 500 (failure e), Some db))
  /\ (forall t mt md,
        bindable b ->
        column_text (prop b "pageTitle") = Some t ->
        column_text (prop b "metaTitle") = Some mt ->
        column_text (prop b "metaDescription") = Some md ->
        put_seo id b now (Some db)
          = (respond 500 (failure (UniqueViolation "seo.pagePath")), Some db)
        /\ field "error" (body (put_seo id b now (Some db)).1)
             = Some (JsonStr "UNIQUE constraint failed: seo.pagePath")).
Proof.
  intros Hid Hold Hother Hne Hp.
  split; [by apply (put_seo_rejects db id b now i j old other)|].
  intros t mt md Hb%bindable_args Ht Hmt Hmd.
  assert (put_seo id b now (Some db)
          = (respond 500 (failure (UniqueViolation "seo.pagePath")), Some db))
    as Hput; [|by rewrite Hput].
  rewrite put_seo_unfold, run_update_cases, (match_some db id i old Hid Hold)
    by done.
  rewrite new_row_body, Hp, Ht, Hmt, Hmd.
  assert (path_taken (seo db) (Some i)
            (pagePath (row_of_body b (pagePath other) t mt md
                         (isPublished old) (createdAt old) now)) = true)
    as ->; [|done].
  apply path_taken_true. exists j, other.
  split; [done|]. split; [congruence|done].
Qed.

(** X16. An update replaces the record, it does not merge into it: after an
    accepted update every optional text field the body leaves out (absent
    or [null]) is NULL in the stored record, whatever it held before, and
    [seoScore] is 0 when the body's score is absent, [null], [false], 0 or
    the empty string. *)
Theorem put_seo_clears_omitted
    (db : Database) (id : string) (b : gmap string jsval) (now : string)
    (i : Z) (old : SeoRow) (p t mt md : string) :
  int_of_text id = Some i ->
  seo db !! i = Some old ->
  bindable b ->
  column_text (prop b "pagePath") = Some p ->
  column_text (prop b "pageTitle") = Some t ->
  column_text (prop b "metaTitle") = Some mt ->
  column_text (prop b "metaDescription") = Some md ->
  (forall j r, seo db !! j = Some r -> j <> i -> pagePath r <> p) ->
  exists row,
    status (put_seo id b now (Some db)).1 = 200
    /\ ((put_seo id b now (Some db)).2 ≫= fun d => seo d !! i) = Some row
    /\ (missing (prop b "content") -> content row = None)
    /\ (missing (prop b "keywords") -> keywords row = None)
    /\ (missing (prop b "canonicalUrl") -> canonicalUrl row = None)
    /\ (missing (prop b "ogTitle") -> ogTitle row = None)
    /\ (missing (prop b "ogDescription") -> ogDescription row = None)
    /\ (missing (prop b "ogImage") -> ogImage row = None)
    /\ (missing (prop b "twitterTitle") -> twitterTitle row = None)
    /\ (missing (prop b "twitterDescription") -> twitterDescription row = None)
    /\ (missing (prop b "twitterImage") -> twitterImage row = None)
    /\ (missing (prop b "robots") -> robots row = None)
    /\ (prop b "seoScore" = JUndefined \/ prop b "seoScore" = JNull
        \/ prop b "seoScore" = JBool false \/ prop b "seoScore" = JNum 0
        \/ prop b "seoScore" = JStr "" ->
        seoScore row = SInt 0).
Proof.
  intros Hid Hold Hb%bindable_args Hp Ht Hmt Hmd Hfree.
  rewrite (put_seo_accepts db id b now i old p t mt md
             Hid Hold Hb Hp Ht Hmt Hmd Hfree).
  eexists. cbn [fst snd status mbind option_bind seo].
  split; [done|]. split; [apply lookup_insert_eq|].
  cbn [row_of_body content keywords canonicalUrl ogTitle ogDescription ogImage
       twitterTitle twitterDescription twitterImage robots seoScore].
  repeat (split; [apply column_text_stores|]).
  apply column_int_stores.
Qed.

(** X17. Repeating an accepted update changes nothing more: the same request,
    served again at the same clock reading, gets the same answer and leaves
    the same store. *)
Theorem put_seo_idempotent
    (db : Database) (id : string) (b : gmap string jsval) (now : string)
    (i : Z) (old : SeoRow) (p t mt md : string) :
  int_of_text id = Some i ->
  seo db !! i = Some old ->
  bindable b ->
  column_text (prop b "pagePath") = Some p ->
  column_text (prop b "pageTitle") = Some t ->
  column_text (prop b "metaTitle") = Some mt ->
  column_text (prop b "metaDescription") = Some md ->
  (forall j r, seo db !! j = Some r -> j <> i -> pagePath r <> p) ->
  status (put_seo id b now (Some db)).1 = 200
  /\ put_seo id b now (put_seo id b now (Some db)).2
     = put_seo id b now (Some db).
Proof.
  intros Hid Hold Hb%bindable_args Hp Ht Hmt Hmd Hfree.
  rewrite (put_seo_accepts db id b now i old p t mt md
             Hid Hold Hb Hp Ht Hmt Hmd Hfree).
  cbn [fst snd status]. split; [done|].
  rewrite (put_seo_accepts _ id b now i
             (row_of_body b p t mt md (isPublished old) (createdAt old) now)
             p t mt md Hid); try done.
  - cbn [seo sqlite_sequence last_insert_rowid row_of_body isPublished createdAt].
    by rewrite insert_insert_eq.
  - cbn [seo]. apply lookup_insert_eq.
  - cbn [seo]. intros j r [[-> _]|[_ Hr]]%lookup_insert_Some Hne; [done|].
    by apply (Hfree j r).
Qed.

End BodyFacts.

(** ** The properties above at the example stores *)

(** The update of record 1 that asks for [isPublished: 0] keeps both. *)
Lemma run_keeps_published_and_created_witness :
  let row := @row_of_body decimal_coercion unpublish_body
               "/about" "About" "About Us" "desc" (SInt 1)
               "2024-01-01 00:00:00" "2024-01-02 00:00:00" in
  isPublished row = isPublished about_row
  /\ createdAt row = createdAt about_row.
Proof.
  intros row.
  apply (@run_keeps_published_and_created decimal_coercion
           [("2024-01-02 00:00:00", PutSeo "1" unpublish_body)]
           about_database
           {| seo := <[1 := row]> (seo about_database);
              sqlite_sequence := 1; last_insert_rowid := 1 |})
    with (i := 1).
  - intros j r [-> ->]%about_database_rows. cbn. lia.
  - reflexivity.
  - reflexivity.
  - cbn [seo]. apply lookup_insert_eq.
Defined.

Lemma busy_run_leaves :
  @state_after decimal_coercion busy_run (Some empty_database)
    = Some renamed_database.
Proof. vm_compute. reflexivity. Qed.

(** After the run that creates two pages, moves the first and deletes the
    second, the record that remains is what its path gets. *)
Lemma run_keeps_records_retrievable_witness :
  exists record,
    @state_after decimal_coercion busy_run (Some empty_database)
      = Some renamed_database
    /\ get_seo_page "/about-us" (Some renamed_database) =
         (respond 200 (JsonObj [("success", JsonBool true);
                                ("seoData", record)]),
          Some renamed_database)
    /\ field "id" record = Some (JsonNum 1)
    /\ field "pagePath" record = Some (JsonStr "/about-us")
    /\ field "isPublished" record = Some (JsonNum 1)
    /\ field "updatedAt" record = Some (JsonStr "2024-01-03 00:00:00").
Proof.
  destruct (@run_keeps_records_retrievable decimal_coercion empty_database
              busy_run) as (db & Hafter & _ & _ & Hget).
  - intros i j r s Hi. by destruct (empty_database_rows i r).
  - intros i r Hi. by destruct (empty_database_rows i r).
  - rewrite busy_run_leaves in Hafter. injection Hafter as <-.
    destruct (Hget 1 renamed_row eq_refl) as (record & Hpage & Hshown).
    destruct Hshown as (Hid & Hp & _ & _ & _ & _ & _ & _ & _ & _ & _ & _ & _
                        & _ & _ & _ & Hpub & _ & Hu).
    exists record. split; [apply busy_run_leaves|].
    split; [exact Hpage|]. split; [exact Hid|]. split; [exact Hp|].
    split; [exact Hpub|exact Hu].
Defined.

(** In that run the record that remains was created on the first day and
    last updated on the third. *)
Lemma run_orders_timestamps_witness :
  @state_after decimal_coercion busy_run (Some empty_database)
    = Some renamed_database
  /\ seo renamed_database !! 1 = Some renamed_row
  /\ String.leb "2024-01-01 00:00:00" "2024-01-03 00:00:00" = true.
Proof.
  destruct (@run_orders_timestamps decimal_coercion "2024-01-01 00:00:00"
              empty_database busy_run) as (db & Hafter & Hord).
  - intros i r Hi. by destruct (empty_database_rows i r).
  - repeat split.
  - rewrite busy_run_leaves in Hafter. injection Hafter as <-.
    split; [apply busy_run_leaves|]. split; [reflexivity|].
    exact (Hord 1 renamed_row eq_refl).
Defined.

(** Creating the second page in the scenario's store, then getting it. *)
Lemma post_then_get_page_witness :
  let created := @post_seo decimal_coercion contact_body "2024-01-02 00:00:00"
                   (Some about_database) in
  let found := get_seo_page "/contact" created.2 in
  status created.1 = 201
  /\ status found.1 = 200
  /\ exists record,
       field "seoData" (body found.1) = Some record
       /\ field "seoData" (body created.1) = Some record
       /\ field "id" record = Some (JsonNum 2)
       /\ field "pagePath" record = Some (JsonStr "/contact")
       /\ field "isPublished" record = Some (JsonNum 1)
       /\ field "createdAt" record = Some (JsonStr "2024-01-02 00:00:00").
Proof.
  intros created found.
  assert (next_rowid about_database <= 2 ^ 53) as Hnext by (by vm_compute).
  destruct (@post_then_get_page decimal_coercion about_database contact_body
              "2024-01-02 00:00:00" "/contact" "Contact" "Contact Us" "desc"
              contact_body_bindable eq_refl eq_refl eq_refl eq_refl)
    as (Hcreated & Hfound & _ & record & row & Hrecord & Hsame & _ & _ & Hid
        & Hpath & Hpub & Hat & _).
  - by intros j r [-> ->]%about_database_rows.
  - exact Hnext.
  - split; [exact Hcreated|]. split; [exact Hfound|].
    exists record. split; [exact Hrecord|]. split; [exact Hsame|].
    split; [exact Hid|]. split; [exact Hpath|]. split; [exact Hpub|exact Hat].
Defined.

(** Moving "/about" to "/about-us" in the store of the two pages. *)
Lemma put_then_get_page_witness :
  let updated := @put_seo decimal_coercion "1" rename_body
                   "2024-01-03 00:00:00" (Some two_pages_database) in
  status updated.1 = 200
  /\ (exists record,
        (get_seo_page "/about-us" updated.2).1 =
          respond 200 (JsonObj [("success", JsonBool true);
                                ("seoData", record)])
        /\ field "pagePath" record = Some (JsonStr "/about-us")
        /\ field "createdAt" record = Some (JsonStr "2024-01-01 00:00:00")
        /\ field "updatedAt" record = Some (JsonStr "2024-01-03 00:00:00"))
  /\ (get_seo_page "/about" updated.2).1 =
       respond 200 (JsonObj [("success", JsonBool true);
                             ("seoData", fallback "/about")]).
Proof.
  intros updated.
  destruct (@put_then_get_page decimal_coercion two_pages_database "1"
              rename_body "2024-01-03 00:00:00" 1 about_row
              "/about-us" "About" "About Us" "desc"
              two_pages_database_unique eq_refl eq_refl eq_refl
              rename_body_bindable eq_refl eq_refl eq_refl eq_refl)
    as (Hstatus & (record & row & Hget & _ & _ & _ & Hpath & _ & Hc & Hu)
        & Hold).
  - intros j r [[-> ->]|[-> ->]]%two_pages_database_rows Hne; done.
  - split; [exact Hstatus|]. split; [|by apply Hold].
    exists record. split; [exact Hget|]. split; [exact Hpath|].
    split; [exact Hc|exact Hu].
Defined.

(** Deleting "/about" from the store of the two pages, then deleting it
    again, then updating it with a boolean score. *)
Lemma delete_then_gone_witness :
  let deleted := @delete_seo decimal_coercion "1" (Some two_pages_database) in
  status deleted.1 = 200
  /\ (deleted.2 ≫= fun d => seo d !! 2) = Some contact_row
  /\ @delete_seo decimal_coercion "1" deleted.2
     = (respond 404 not_found, deleted.2)
  /\ @put_seo decimal_coercion "1" about_body "2024-01-05 00:00:00" deleted.2
     = (respond 404 not_found, deleted.2)
  /\ (@put_seo decimal_coercion "1" scored_body "2024-01-05 00:00:00"
                deleted.2).2 = deleted.2.
Proof.
  intros deleted.
  destruct (@delete_then_gone decimal_coercion two_pages_database "1" 1
              about_row two_pages_database_unique eq_refl eq_refl)
    as (Hstatus & _ & Hagain & Hupdate & Hany).
  split; [exact Hstatus|]. split; [reflexivity|]. split; [exact Hagain|].
  split; [apply Hupdate, about_body_bindable|].
  apply (Hany scored_body "2024-01-05 00:00:00").
Defined.

(** Deleting "/contact", the record of the largest [id], and creating it
    again: the new record is 3, not 2. *)
Lemma delete_then_create_witness :
  let created := @post_seo decimal_coercion contact_body "2024-01-04 00:00:00"
                   (@delete_seo decimal_coercion "2"
                      (Some two_pages_database)).2 in
  status created.1 = 201
  /\ (field "seoData" (body created.1) ≫= field "id") = Some (JsonNum 3)
  /\ (field "seoData" (body created.1) ≫= field "pagePath")
     = Some (JsonStr "/contact")
  /\ (created.2 ≫= fun d => seo d !! 2) = None.
Proof.
  intros created.
  assert (next_rowid two_pages_database <= 2 ^ 53) as Hnext by (by vm_compute).
  destruct (@delete_then_create decimal_coercion two_pages_database "2" 2
              contact_row contact_body "2024-01-04 00:00:00"
              "Contact" "Contact Us" "desc"
              two_pages_database_unique two_pages_database_bounds
              eq_refl eq_refl contact_body_bindable
              eq_refl eq_refl eq_refl eq_refl Hnext)
    as (Hstatus & i' & record & row & Hrecord & _ & _ & Hpath & _ & Hgone & _).
  split; [exact Hstatus|]. split; [reflexivity|].
  split; [|exact Hgone].
  fold created in Hrecord. rewrite Hrecord. exact Hpath.
Defined.

(** A create without [pageTitle]. *)
Lemma required_fields_enforced_witness :
  @post_seo decimal_coercion untitled_body "2024-01-02 00:00:00"
            (Some about_database)
    = (respond 500
         (JsonObj [("success", JsonBool false);
                   ("error",
                    JsonStr "NOT NULL constraint failed: seo.pageTitle")]),
       Some about_database).
Proof.
  assert (next_rowid about_database <= rowid_limit) as Hroom
    by (by vm_compute).
  destruct (@required_fields_enforced decimal_coercion about_database
              untitled_body "2024-01-02 00:00:00" untitled_body_bindable)
    as (Hpost & _).
  - right. left. by left.
  - destruct (Hpost Hroom) as (column & Hrefused & _ & _).
    pose proof Hrefused as Hcolumn. vm_compute in Hcolumn.
    injection Hcolumn as <-. exact Hrefused.
Defined.

(** Giving record 1 the path of record 2. *)
Lemma put_seo_conflict_witness :
  @put_seo decimal_coercion "1" contact_body "2024-01-03 00:00:00"
           (Some two_pages_database)
    = (respond 500
         (JsonObj [("success", JsonBool false);
                   ("error",
                    JsonStr "UNIQUE constraint failed: seo.pagePath")]),
       Some two_pages_database).
Proof.
  apply (proj2 (@put_seo_conflict decimal_coercion two_pages_database "1"
                  contact_body "2024-01-03 00:00:00" 1 2 about_row contact_row
                  eq_refl eq_refl eq_refl ltac:(done) eq_refl)
           "Contact" "Contact Us" "desc" contact_body_bindable
           eq_refl eq_refl eq_refl).
Defined.

(** Updating record 2, which holds keywords, a robots directive and the
    score 90, with the four required fields only. *)
Lemma put_seo_clears_omitted_witness :
  seo two_pages_database !! 2 = Some contact_row
  /\ keywords contact_row = Some "contact, email"
  /\ seoScore contact_row = SInt 90
  /\ exists row,
       ((@put_seo decimal_coercion "2" contact_body "2024-01-03 00:00:00"
                  (Some two_pages_database)).2 ≫= fun d => seo d !! 2)
         = Some row
       /\ keywords row = None /\ robots row = None /\ seoScore row = SInt 0.
Proof.
  split; [reflexivity|]. split; [reflexivity|]. split; [reflexivity|].
  destruct (@put_seo_clears_omitted decimal_coercion two_pages_database "2"
              contact_body "2024-01-03 00:00:00" 2 contact_row
              "/contact" "Contact" "Contact Us" "desc"
              eq_refl eq_refl contact_body_bindable
              eq_refl eq_refl eq_refl eq_refl)
    as (row & _ & Hrow & _ & Hkeywords & _ & _ & _ & _ & _ & _ & _ & Hrobots
        & Hscore).
  - intros j r [[-> ->]|[-> ->]]%two_pages_database_rows Hne; done.
  - exists row. split; [exact Hrow|].
    split; [apply Hkeywords; by left|].
    split; [apply Hrobots; by left|apply Hscore; by left].
Defined.

(** Updating record 2 twice with the same body at the same clock reading. *)
Lemma put_seo_idempotent_witness :
  status (@put_seo decimal_coercion "2" contact_body "2024-01-03 00:00:00"
                   (Some two_pages_database)).1 = 200
  /\ @put_seo decimal_coercion "2" contact_body "2024-01-03 00:00:00"
              (@put_seo decimal_coercion "2" contact_body "2024-01-03 00:00:00"
                        (Some two_pages_database)).2
     = @put_seo decimal_coercion "2" contact_body "2024-01-03 00:00:00"
                (Some two_pages_database).
Proof.
  apply (@put_seo_idempotent decimal_coercion two_pages_database "2"
           contact_body "2024-01-03 00:00:00" 2 contact_row
           "/contact" "Contact" "Contact Us" "desc"); try reflexivity.
  - exact contact_body_bindable.
  - intros j r [[-> ->]|[-> ->]]%two_pages_database_rows Hne; done.
Defined.
